(** * Vinted buy/resell scanner: scoring engine and page fetcher

    A shallow embedding of [src/app.py].

    Conventions of the embedding.
    - In [Scoring] a Python [float] is an exact rational ([Q]): the
      arithmetic of the engine is read over the rationals, [round(x, n)] is
      rounding to the nearest multiple of [10^-n], ties to even.  Bounds and
      orderings are stated there.
    - In [Binary64] the median and the net profit are embedded again on the
      floats of the kernel (IEEE 754 binary64, the [float] of Python), with
      Python's [round]: the results to the cent are stated there, since
      double arithmetic and exact arithmetic differ in the last place
      (asking 8.34 against an estimate of 48.95 nets 27.71, not 27.72).
    - A Python [int] is a [Z]; [None] is [None]; a raised exception is the
      [Raise] case of [result].
    - The listing [dict] is read only through [listing.get(key, default)]:
      it is a record of optional, typed entries.
    - [math.log] and [datetime.fromisoformat] belong to the Python runtime,
      not to the program: they are variables of the section that embeds
      [velocity_score].  The instant returned by [datetime.now(timezone.utc)]
      is an explicit argument [now] (seconds since the epoch). *)

From Stdlib Require Import QArith Qround Qabs Qminmax Lqa Lia ZArith List String Ascii Bool.
From Stdlib Require Import Sorted Permutation.
From Stdlib Require Import Floats.
Import ListNotations.
Open Scope Q_scope.

(** Decimal literals of floats denote the nearest double, as in Python. *)
Set Warnings "-inexact-float".

(** ** Python builtins used by the engine *)

Module Py.

Inductive exn : Set := ValueError | ZeroDivisionError.

Inductive result (A : Type) : Type :=
| Ok (a : A)
| Raise (e : exn).
Arguments Ok {A} a.
Arguments Raise {A} e.

Definition bind {A B : Type} (c : result A) (k : A -> result B) : result B :=
  match c with
  | Ok a => k a
  | Raise e => Raise e
  end.

Notation "x <- c ;; k" := (bind c (fun x => k))
  (at level 61, c at next level, right associativity).

Definition Qltb (x y : Q) : bool := negb (Qle_bool y x).

(** [min(a, b)]: the first argument, unless the second is strictly smaller. *)
Definition py_min (a b : Q) : Q := if Qltb b a then b else a.

(** [max(a, b)]: the first argument, unless the second is strictly greater. *)
Definition py_max (a b : Q) : Q := if Qltb a b then b else a.

(** [x / y] on floats with a divisor that is not a literal. *)
Definition truediv (x y : Q) : result Q :=
  if Qeq_bool y 0 then Raise ZeroDivisionError else Ok (x / y).

(** Nearest integer, ties to the even neighbour. *)
Definition round_half_even (x : Q) : Z :=
  let f := Qfloor x in
  let r := x - inject_Z f in
  if Qltb r (1 # 2) then f
  else if Qltb (1 # 2) r then (f + 1)%Z
  else if Z.even f then f else (f + 1)%Z.

Definition pow10 (ndigits : nat) : Q := inject_Z (10 ^ Z.of_nat ndigits).

(** [round(x, ndigits)]. *)
Definition round (x : Q) (ndigits : nat) : Q :=
  inject_Z (round_half_even (x * pow10 ndigits)) / pow10 ndigits.

(** [sorted(nums)]: a stable sort, here by insertion. *)
Fixpoint insert (x : Q) (l : list Q) : list Q :=
  match l with
  | [] => [x]
  | y :: t => if Qle_bool x y then x :: l else y :: insert x t
  end.

Fixpoint sorted (l : list Q) : list Q :=
  match l with
  | [] => []
  | x :: t => insert x (sorted t)
  end.

(** [s.replace("Z", "+00:00")]. *)
Fixpoint replace_Z (s : string) : string :=
  match s with
  | EmptyString => EmptyString
  | String c t =>
      if Ascii.eqb c "Z"%char then ("+00:00" ++ replace_Z t)%string
      else String c (replace_Z t)
  end.

(** Truth value of a string: empty strings are false. *)
Definition truthy (s : string) : bool :=
  match s with
  | EmptyString => false
  | String _ _ => true
  end.

(** A [datetime]: timezone-aware (an instant, in seconds since the epoch) or
    naive (a wall-clock reading).  [now - dt] with [now] aware raises
    [TypeError] on a naive [dt]. *)
Inductive datetime : Set :=
| Aware (t : Q)
| Naive (t : Q).

End Py.

Import Py.

(** ** Scoring engine *)

Module Scoring.

(** *** Config *)

Definition VINTED_FEES_PCT : Q := 0.10.
Definition AVG_SHIPPING_COST : Q := 5.0.
Definition DEFAULT_REFURB_COST : Q := 3.0.

Definition MIN_PROFIT_DESIRABLE : Q := 5.0.
Definition MAX_PROFIT_CONSIDERED : Q := 200.0.

Definition WEIGHT_PROFIT : Q := 0.40.
Definition WEIGHT_VELOCITY : Q := 0.55.
Definition WEIGHT_RISK : Q := 0.15.

(** *** Utils *)

Definition clamp (x lo hi : Q) : Q := py_max lo (py_min hi x).

Definition median (nums : list Q) : option Q :=
  match nums with
  | [] => None
  | _ =>
      let s := sorted nums in
      let n := List.length s in
      if Nat.eqb (n mod 2) 1 then Some (nth (n / 2) s 0)
      else Some ((nth (n / 2 - 1) s 0 + nth (n / 2) s 0) / 2.0)
  end.

Definition estimate_market_price (historical_prices : list Q) : option Q :=
  median historical_prices.

Definition compute_net_profit (asking_price : Q) (market_price_est : option Q)
  (fees_pct shipping refurb : Q) : option Q :=
  match market_price_est with
  | None => None
  | Some m =>
      let gross := m - asking_price in
      let fees := m * fees_pct in
      let net := gross - fees - shipping - refurb in
      Some (round net 2)
  end.

Definition risk_penalty (photo_quality : Q) (ambiguous_brand suspect_low_price : bool) : Q :=
  let r := 0.0 in
  let r := if Qltb photo_quality 0.5 then r + 0.25 else r in
  let r := if ambiguous_brand then r + 0.35 else r in
  let r := if suspect_low_price then r + 0.25 else r in
  clamp r 0.0 1.0.

(** The dictionary returned by [final_score]. *)
Record Final : Type := mkFinal {
  final_score_pct : Q;
  final_profit_normalized : Q;
  final_velocity : Q;
  final_risk : Q;
  final_net_profit : option Q
}.

Definition final_score (net_profit : option Q) (velocity risk min_profit max_profit : Q)
  : result Final :=
  profit_norm <-
    match net_profit with
    | None => Ok 0.0
    | Some np =>
        p <- truediv (np - min_profit) (max_profit - min_profit) ;;
        Ok (clamp p 0.0 1.0)
    end ;;
  let raw := WEIGHT_PROFIT * profit_norm + WEIGHT_VELOCITY * velocity - WEIGHT_RISK * risk in
  let raw := clamp raw 0.0 1.0 in
  let score_pct := round (raw * 100) 2 in
  Ok {| final_score_pct := score_pct;
        final_profit_normalized := round profit_norm 4;
        final_velocity := round velocity 4;
        final_risk := round risk 4;
        final_net_profit := option_map (fun np => round np 2) net_profit |}.

(** *** The part that calls into the Python runtime *)

Section Runtime.

(** [math.log] on its domain, the positive floats. *)
Variable ln : Q -> Q.

(** [datetime.fromisoformat]: [None] when it raises [ValueError]. *)
Variable fromisoformat : string -> option datetime.

Definition math_log (x : Q) : result Q :=
  if Qltb 0 x then Ok (ln x) else Raise ValueError.

(** Lines 84-92 of [velocity_score]: every exception raised under the [try]
    ([ValueError] of the parser, [TypeError] of the subtraction on a naive
    datetime) ends in [recency_factor = 0.0]. *)
Definition recency_factor (now : Q) (posted_at : option string) : Q :=
  match posted_at with
  | None => 0.0
  | Some s =>
      if truthy s then
        match fromisoformat (replace_Z s) with
        | Some (Aware dt) =>
            let delta_hours := py_max 0.0 ((now - dt) / 3600.0) in
            clamp (1 - delta_hours / (24 * 7)) 0.0 1.0
        | Some (Naive _) => 0.0
        | None => 0.0
        end
      else 0.0
  end.

(** The locals of [velocity_score], lines 81-82 and 94-96. *)
Definition price_ratio (asking_price m : Q) : result Q :=
  if Qltb 0 m then truediv asking_price m else Ok 1.0.

Definition price_factor (price_ratio : Q) : Q :=
  clamp (1.5 - price_ratio) 0.0 1.5 / 1.5.

Definition social (likes views : Z) : result Q :=
  social <- (l <- math_log (1 + inject_Z likes + inject_Z views / 20.0) ;; Ok (l / 5.0)) ;;
  Ok (clamp social 0.0 1.0).

Definition brand (brand_popularity : Q) : Q := clamp brand_popularity 0.0 1.0.

Definition velocity_score (now : Q) (asking_price : Q) (market_price_est : option Q)
  (posted_at : option string) (likes views : Z) (brand_popularity : Q) : result Q :=
  match market_price_est with
  | None => Ok 0.0
  | Some m =>
      price_ratio <- price_ratio asking_price m ;;
      let price_factor := price_factor price_ratio in
      let recency_factor := recency_factor now posted_at in
      social <- social likes views ;;
      let brand := brand brand_popularity in
      let score := 0.5 * price_factor + 0.3 * recency_factor + 0.15 * social + 0.05 * brand in
      Ok (clamp score 0.0 1.0)
  end.

(** The listing dictionary, as [score_listing] reads it: each key may be
    absent. *)
Record Listing : Type := mkListing {
  asking_price : option Q;
  market_price_est : option Q;
  historical_prices : option (list Q);
  posted_at : option string;
  likes : option Z;
  views : option Z;
  brand_popularity : option Q;
  photo_quality : option Q;
  ambiguous_brand : option bool;
  suspect_low_price : option bool
}.

(** [d.get(key, default)]. *)
Definition get {A : Type} (entry : option A) (default : A) : A :=
  match entry with
  | Some v => v
  | None => default
  end.

Record Components : Type := mkComponents {
  profit_normalized : Q;
  velocity : Q;
  risk : Q
}.

Record Raw : Type := mkRaw {
  velocity_raw : Q;
  risk_raw : Q;
  net_profit_raw : option Q
}.

(** The dictionary returned by [score_listing]. *)
Record ScoreResult : Type := mkScoreResult {
  result_asking_price : Q;
  result_market_price_est : option Q;
  net_profit : option Q;
  score : Q;
  components : Components;
  raw : Raw
}.

(** The local [market_est] of [score_listing], lines 138-140. *)
Definition market_est (listing : Listing) : option Q :=
  match market_price_est listing with
  | Some m => Some m
  | None => estimate_market_price (get (historical_prices listing) [])
  end.

Definition score_listing (now : Q) (listing : Listing) : result ScoreResult :=
  let asking := get (asking_price listing) 0.0 in
  let market_est := market_est listing in
  let netp := compute_net_profit asking market_est
                VINTED_FEES_PCT AVG_SHIPPING_COST DEFAULT_REFURB_COST in
  vel <- velocity_score now asking market_est (posted_at listing)
           (get (likes listing) 0%Z) (get (views listing) 0%Z)
           (get (brand_popularity listing) 0.5) ;;
  let risk := risk_penalty (get (photo_quality listing) 1.0)
                (get (ambiguous_brand listing) false)
                (get (suspect_low_price listing) false) in
  final <- final_score netp vel risk MIN_PROFIT_DESIRABLE MAX_PROFIT_CONSIDERED ;;
  Ok {| result_asking_price := asking;
        result_market_price_est := market_est;
        net_profit := final_net_profit final;
        score := final_score_pct final;
        components := {| profit_normalized := final_profit_normalized final;
                         velocity := final_velocity final;
                         risk := final_risk final |};
        raw := {| velocity_raw := vel; risk_raw := risk; net_profit_raw := netp |} |}.

End Runtime.

(** *** Names for parts of the functions above *)

(** The local [profit_norm] of [final_score], at the default bounds. *)
Definition profit_norm (np : option Q) : Q :=
  match np with
  | None => 0.0
  | Some x =>
      clamp ((x - MIN_PROFIT_DESIRABLE) / (MAX_PROFIT_CONSIDERED - MIN_PROFIT_DESIRABLE))
        0.0 1.0
  end.

(** Lines 141 and 147-167 of [score_listing], once the velocity is known. *)
Definition result_of (l : Listing) (vel : Q) : ScoreResult :=
  let asking := get (asking_price l) 0.0 in
  let netp := compute_net_profit asking (market_est l)
                VINTED_FEES_PCT AVG_SHIPPING_COST DEFAULT_REFURB_COST in
  let rk := risk_penalty (get (photo_quality l) 1.0)
              (get (ambiguous_brand l) false) (get (suspect_low_price l) false) in
  {| result_asking_price := asking;
     result_market_price_est := market_est l;
     net_profit := option_map (fun x => round x 2) netp;
     score := round (clamp (WEIGHT_PROFIT * profit_norm netp + WEIGHT_VELOCITY * vel
                            - WEIGHT_RISK * rk) 0.0 1.0 * 100) 2;
     components := {| profit_normalized := round (profit_norm netp) 4;
                      velocity := round vel 4;
                      risk := round rk 4 |};
     raw := {| velocity_raw := vel; risk_raw := rk; net_profit_raw := netp |} |}.

End Scoring.

(** ** Median and net profit in double precision

    Lines 49-71 and 137-141 on binary64 floats, for the properties that
    are about cents.  A float is a [float] of the kernel, with the IEEE 754
    operations of the hardware; [round] is the [round(x, ndigits)] of
    Python. *)

Module Binary64.

Definition VINTED_FEES_PCT : float := 0.10.
Definition AVG_SHIPPING_COST : float := 5.0.
Definition DEFAULT_REFURB_COST : float := 3.0.

(** The rational that a finite float stands for. *)
Definition exact (x : float) : option Q :=
  match Prim2SF x with
  | S754_zero _ => Some 0
  | S754_finite s m e =>
      Some ((if s then - inject_Z (Zpos m) else inject_Z (Zpos m)) * Qpower 2 e)
  | S754_infinity _ => None
  | S754_nan => None
  end.

(** [float(k)] for an integer [0 <= k < 2^63]; exact below [2^53]. *)
Definition of_Z (k : Z) : float := PrimFloat.of_uint63 (Uint63.of_Z k).

(** [round(x, ndigits)] on a float, for the [ndigits] 2 and 4 of the
    engine: the exact value of [x] is rounded to the nearest multiple [k] of
    [10^-ndigits], ties to the even one, and the result is the float nearest
    to that decimal, which is the quotient of the floats [k] and
    [10^ndigits].  Infinities and NaN are returned as they are, and so is an
    [x] with [k] from [2^53] on: its neighbours are further apart than
    [10^-ndigits]. *)
Definition round (x : float) (ndigits : nat) : float :=
  match exact x with
  | None => x
  | Some q =>
      let k := Z.abs (round_half_even (q * pow10 ndigits)) in
      if (k <? 2 ^ 53)%Z then
        let r := (of_Z k / of_Z (10 ^ Z.of_nat ndigits))%float in
        if get_sign x then (- r)%float else r
      else x
  end.

(** [sorted(nums)]: a stable sort by [<], here by insertion.  On floats
    without a NaN, which [<] orders, every stable sort returns this list;
    with a NaN among them the order that Python leaves depends on its
    algorithm, and the properties of the sorted list assume there is
    none. *)
Fixpoint insert (x : float) (l : list float) : list float :=
  match l with
  | [] => [x]
  | y :: t => if (y <? x)%float then y :: insert x t else x :: l
  end.

Fixpoint sorted (l : list float) : list float :=
  match l with
  | [] => []
  | x :: t => insert x (sorted t)
  end.

Definition median (nums : list float) : option float :=
  match nums with
  | [] => None
  | _ =>
      let s := sorted nums in
      let n := List.length s in
      if Nat.eqb (n mod 2) 1 then Some (nth (n / 2) s 0%float)
      else Some ((nth (n / 2 - 1) s 0 + nth (n / 2) s 0) / 2.0)%float
  end.

Definition estimate_market_price (historical_prices : list float) : option float :=
  median historical_prices.

Definition compute_net_profit (asking_price : float) (market_price_est : option float)
  (fees_pct shipping refurb : float) : option float :=
  match market_price_est with
  | None => None
  | Some m =>
      let gross := (m - asking_price)%float in
      let fees := (m * fees_pct)%float in
      let net := (gross - fees - shipping - refurb)%float in
      Some (round net 2)
  end.

(** The keys of the listing that lines 137-141 of [score_listing] read. *)
Record Listing : Type := mkListing {
  asking_price : option float;
  market_price_est : option float;
  historical_prices : option (list float)
}.

(** The locals [asking], [market_est] and [netp] of [score_listing]. *)
Definition asking (listing : Listing) : float :=
  Scoring.get (asking_price listing) 0.0%float.

Definition market_est (listing : Listing) : option float :=
  match market_price_est listing with
  | Some m => Some m
  | None => estimate_market_price (Scoring.get (historical_prices listing) [])
  end.

Definition netp (listing : Listing) : option float :=
  compute_net_profit (asking listing) (market_est listing)
    VINTED_FEES_PCT AVG_SHIPPING_COST DEFAULT_REFURB_COST.

End Binary64.

(** ** Async collector *)

Module Collector.

Definition DEFAULT_CONCURRENCY : Z := 6.

(** What [await self._client.get(url)] ends in: a response, or an exception
    of the transport (connection failure, timeout). *)
Inductive http_outcome : Type :=
| Response (status_code : Z) (text : string)
| TransportError (message : string).

(** How a call of [_fetch] ends: it returns an [Optional[str]], or an
    exception leaves it. *)
Inductive fetched : Type :=
| Return (body : option string)
| Propagate (message : string).

(** Modelled from the spec: the source of [_fetch] stops at the [else:] of
    line 189; the [else] branch and the [except] clause of the [try] follow
    section 4.1 (a non-200 status and a network or timeout error both give the
    "unavailable" result, [None]).  The 200 branch is the source's. *)
Definition on_outcome (o : http_outcome) : fetched :=
  match o with
  | Response status_code text =>
      if (status_code =? 200)%Z then Return (Some text) else Return None
  | TransportError _ => Return None
  end.

(** [_fetch], once the permit is held: [client_get] is the answer of the
    network to this call. *)
Definition _fetch (client_get : string -> http_outcome) (url : string) : fetched :=
  on_outcome (client_get url).

(** [asyncio.Semaphore(value)] raises [ValueError] on a negative value. *)
Definition Semaphore (value : Z) : result Z :=
  if (value <? 0)%Z then Raise ValueError else Ok value.

(** A collector and the calls of [_fetch] made on it: [sema] is the counter
    of the semaphore; a call is [queued] before [async with self.sema] lets
    it in, [in_flight] while it awaits the answer to its request, and
    [finished] once it has left the [async with] block. *)
Record CollectorAsync : Type := mkCollector {
  concurrency : Z;
  sema : Z;
  queued : list string;
  in_flight : list string;
  finished : list (string * fetched)
}.

(** [CollectorAsync(concurrency)], with one call of [_fetch] per url. *)
Definition init (concurrency : Z) (urls : list string) : result CollectorAsync :=
  value <- Semaphore concurrency ;;
  Ok {| concurrency := concurrency; sema := value; queued := urls;
        in_flight := []; finished := [] |}.

(** One step of the event loop.  [acquire]: a queued call enters the
    [async with] block, which takes a permit and needs the counter positive.
    [release]: the request of a call in flight ends, the call leaves the block
    and gives its permit back. *)
Inductive step : CollectorAsync -> CollectorAsync -> Prop :=
| step_acquire c before url after :
    queued c = before ++ url :: after ->
    (0 < sema c)%Z ->
    step c {| concurrency := concurrency c; sema := sema c - 1;
              queued := before ++ after;
              in_flight := url :: in_flight c;
              finished := finished c |}
| step_release c before url after client_get :
    in_flight c = before ++ url :: after ->
    step c {| concurrency := concurrency c; sema := sema c + 1;
              queued := queued c;
              in_flight := before ++ after;
              finished := (url, _fetch client_get url) :: finished c |}.

Inductive steps : CollectorAsync -> CollectorAsync -> Prop :=
| steps_refl c : steps c c
| steps_next c1 c2 c3 : steps c1 c2 -> step c2 c3 -> steps c1 c3.

End Collector.

(** ** The formulas of the specification

    Definitions that follow the words of the specification (sections 3, 4.3
    and 8), to be compared with the functions embedded from the source. *)

Module Spec.

Import Scoring.

(** "likes, views (non-negative integers)". *)
Definition counters_nonneg (l : Listing) : Prop :=
  (0 <= get (likes l) 0)%Z /\ (0 <= get (views l) 0)%Z.

(** A counter of the data model within the range that Python converts to a
    float: on an integer from [2^1024] on, [views / 20.0] and the sum of
    line 94 raise [OverflowError]. *)
Definition counter (n : Z) : Prop := (0 <= n < 2 ^ 1023)%Z.

(** "market_price_est is unavailable (no historical prices and none
    supplied)". *)
Definition market_unavailable (l : Listing) : Prop :=
  market_price_est l = None /\ get (historical_prices l) [] = [].

(** The same listing with another asking price ("all else equal"). *)
Definition with_asking (l : Listing) (a : Q) : Listing :=
  {| asking_price := Some a;
     market_price_est := market_price_est l;
     historical_prices := historical_prices l;
     posted_at := posted_at l;
     likes := likes l;
     views := views l;
     brand_popularity := brand_popularity l;
     photo_quality := photo_quality l;
     ambiguous_brand := ambiguous_brand l;
     suspect_low_price := suspect_low_price l |}.

(** Order on optional amounts: absent on both sides, or present and
    ordered. *)
Definition option_le (x y : option Q) : Prop :=
  match x, y with
  | None, None => True
  | Some a, Some b => a <= b
  | _, _ => False
  end.

(** "+0.25 if photo_quality < 0.5; +0.35 if ambiguous_brand; +0.25 if
    suspect_low_price; 0 otherwise for each condition not met." *)
Definition risk_increments (low_photo ambiguous suspect : bool) : Q :=
  (if low_photo then 0.25 else 0) + (if ambiguous then 0.35 else 0)
  + (if suspect then 0.25 else 0).

(** "net = (market_est - asking_price) - (market_est x fees_pct)
    - shipping_cost - refurb_cost", each operation in double precision. *)
Definition net_binary64 (market asking fees_pct shipping_cost refurb_cost : float) : float :=
  ((market - asking) - (market * fees_pct) - shipping_cost - refurb_cost)%float.

(** The order of the floats; no NaN is below or above anything. *)
Definition float_le (x y : float) : Prop := (x <=? y)%float = true.

(** How many amounts of a list are at most a value. *)
Definition count_le (m : Q) (l : list Q) : nat :=
  List.length (filter (fun x => Qle_bool x m) l).

(** How many floats of a list are at most, and at least, a value: a median
    has at least half of them on either side. *)
Definition count_float_le (m : float) (l : list float) : nat :=
  List.length (filter (fun x => (x <=? m)%float) l).

Definition count_float_ge (m : float) (l : list float) : nat :=
  List.length (filter (fun x => (m <=? x)%float) l).

Definition is_median (m : float) (l : list float) : Prop :=
  (List.length l <= 2 * count_float_le m l)%nat /\
  (List.length l <= 2 * count_float_ge m l)%nat.

Section Velocity.

Variable ln : Q -> Q.
Variable fromisoformat : string -> option datetime.

(** "price_factor: clamp(1.5 - price_ratio, 0, 1.5) / 1.5". *)
Definition price_factor_of (price_ratio : Q) : Q :=
  clamp (1.5 - price_ratio) 0 1.5 / 1.5.

(** "where price_ratio = asking_price / market_est". *)
Definition price_factor (asking market : Q) : Q :=
  price_factor_of (asking / market).

(** The timestamp of a listing: "ISO-8601 with timezone or assumed UTC";
    an empty string is no timestamp. *)
Definition timestamp (posted_at : option string) : option datetime :=
  match posted_at with
  | None => None
  | Some s => if truthy s then fromisoformat (replace_Z s) else None
  end.

Definition instant (d : datetime) : Q :=
  match d with
  | Aware t => t
  | Naive t => t
  end.

(** "linear decay to 0 over one week": [clamp(1 - hours_since_posted/(24 x 7), 0, 1)]. *)
Definition decay (now posted : Q) : Q :=
  clamp (1 - ((now - posted) / 3600) / (24 * 7)) 0 1.

(** "recency_factor: 0 if no timestamp parses; otherwise [decay]". *)
Definition recency_factor (now : Q) (posted_at : option string) : Q :=
  match timestamp posted_at with
  | None => 0
  | Some d => decay now (instant d)
  end.

(** "social_factor: clamp(ln(1 + likes + views/20) / 5, 0, 1)". *)
Definition social_factor (likes views : Z) : Q :=
  clamp (ln (1 + inject_Z likes + inject_Z views / 20.0) / 5) 0 1.

(** "brand_factor: clamp(brand_popularity, 0, 1)". *)
Definition brand_factor (brand_popularity : Q) : Q := clamp brand_popularity 0 1.

(** "0.50 price_factor + 0.30 recency_factor + 0.15 social_factor
    + 0.05 brand_factor, then clamped to [0,1]". *)
Definition combine (price recency social brand : Q) : Q :=
  clamp (0.50 * price + 0.30 * recency + 0.15 * social + 0.05 * brand) 0 1.

Definition velocity (now asking market : Q) (posted_at : option string)
  (likes views : Z) (brand_popularity : Q) : Q :=
  combine (price_factor asking market) (recency_factor now posted_at)
    (social_factor likes views) (brand_factor brand_popularity).

(** What the source computes instead: line 81 takes the price ratio 1 when
    the market estimate is not positive, and lines 89-92 leave the recency
    at 0 when [now - dt] raises on a timestamp without a UTC offset. *)
Definition price_factor_guarded (asking market : Q) : Q :=
  price_factor_of (if Qltb 0 market then asking / market else 1).

Definition recency_factor_aware (now : Q) (posted_at : option string) : Q :=
  match timestamp posted_at with
  | Some (Aware t) => decay now t
  | Some (Naive _) => 0
  | None => 0
  end.

Definition velocity_guarded (now asking market : Q) (posted_at : option string)
  (likes views : Z) (brand_popularity : Q) : Q :=
  combine (price_factor_guarded asking market) (recency_factor_aware now posted_at)
    (social_factor likes views) (brand_factor brand_popularity).

End Velocity.

(** Section 5: "at most N concurrently in-flight fetches". *)

(** The gate invariant: permits left plus calls in flight make up the
    capacity, and no permit count is negative. *)
Definition gate_invariant (capacity : Z) (c : Collector.CollectorAsync) : Prop :=
  Collector.concurrency c = capacity /\
  (0 <= Collector.sema c)%Z /\
  (Collector.sema c + Z.of_nat (List.length (Collector.in_flight c)) = capacity)%Z.

(** Every call is in one place: queued, in flight or finished. *)
Definition calls (c : Collector.CollectorAsync) : nat :=
  (List.length (Collector.queued c) + List.length (Collector.in_flight c)
   + List.length (Collector.finished c))%nat.

End Spec.

(** ** A runtime for the examples

    Python's answers on the arguments that the examples below use:
    [math.log] to six decimals, and [datetime.fromisoformat] on one instant,
    2024-01-01 00:00:00 UTC, written with and without its offset. *)

Module Sample.

Definition epoch_2024 : Q := 1704067200.

Definition one_week : Q := 604800.

Definition ln (x : Q) : Q :=
  if Qeq_bool x 1 then 0
  else if Qeq_bool x 16 then 2.772589
  else 0.

Definition fromisoformat (s : string) : option datetime :=
  if String.eqb s "2024-01-01T00:00:00+00:00" then Some (Aware epoch_2024)
  else if String.eqb s "2024-01-01T00:00:00" then Some (Naive epoch_2024)
  else None.

(** The listing of the end-to-end scenario of section 8, posted at
    [epoch_2024]. *)
Definition scenario : Scoring.Listing :=
  {| Scoring.asking_price := Some 20;
     Scoring.market_price_est := None;
     Scoring.historical_prices := Some [30; 40; 50];
     Scoring.posted_at := Some "2024-01-01T00:00:00Z"%string;
     Scoring.likes := Some 10%Z;
     Scoring.views := Some 100%Z;
     Scoring.brand_popularity := Some 0.8;
     Scoring.photo_quality := Some 1.0;
     Scoring.ambiguous_brand := None;
     Scoring.suspect_low_price := None |}.

(** A listing with nothing but an asking price and a supplied estimate. *)
Definition bare (asking market : Q) : Scoring.Listing :=
  {| Scoring.asking_price := Some asking;
     Scoring.market_price_est := Some market;
     Scoring.historical_prices := None;
     Scoring.posted_at := None;
     Scoring.likes := None;
     Scoring.views := None;
     Scoring.brand_popularity := None;
     Scoring.photo_quality := None;
     Scoring.ambiguous_brand := None;
     Scoring.suspect_low_price := None |}.

(** A listing with no key at all. *)
Definition empty : Scoring.Listing :=
  {| Scoring.asking_price := None;
     Scoring.market_price_est := None;
     Scoring.historical_prices := None;
     Scoring.posted_at := None;
     Scoring.likes := None;
     Scoring.views := None;
     Scoring.brand_popularity := None;
     Scoring.photo_quality := None;
     Scoring.ambiguous_brand := None;
     Scoring.suspect_low_price := None |}.


Definition sample_url : string := "https://www.vinted.fr/catalog?search_text=veste".

Definition sample_urls : list string := List.repeat sample_url 20.

(** A server that answers 404 to everything. *)
Definition not_found (url : string) : Collector.http_outcome :=
  Collector.Response 404 "Not Found".

(** The scenario of section 8: 20 URLs, capacity 6.  [after_acquires k] is
    the collector once [k] calls have entered the gate. *)
Definition after_acquires (k : nat) : Collector.CollectorAsync :=
  {| Collector.concurrency := 6;
     Collector.sema := 6 - Z.of_nat k;
     Collector.queued := skipn k sample_urls;
     Collector.in_flight := firstn k sample_urls;
     Collector.finished := [] |}.

End Sample.

(** ** Notions for the properties beyond the claims *)

Module Coverage.

Import Scoring.

(** The same listing with other historical prices. *)
Definition with_historical_prices (l : Listing) (prices : option (list Q)) : Listing :=
  {| asking_price := asking_price l;
     market_price_est := market_price_est l;
     historical_prices := prices;
     posted_at := posted_at l;
     likes := likes l;
     views := views l;
     brand_popularity := brand_popularity l;
     photo_quality := photo_quality l;
     ambiguous_brand := ambiguous_brand l;
     suspect_low_price := suspect_low_price l |}.

(** An increasing function to stand for [math.log] in a witness: the tangent
    of the logarithm at 1. *)
Definition ln_tangent (x : Q) : Q := x - 1.

(** A listing outside the data model: a negative counter, no estimate. *)
Definition no_estimate_negative_likes : Listing :=
  {| asking_price := Some 20;
     market_price_est := None;
     historical_prices := Some [];
     posted_at := None;
     likes := Some (-5)%Z;
     views := None;
     brand_popularity := None;
     photo_quality := Some 0.2;
     ambiguous_brand := Some true;
     suspect_low_price := None |}.

(** A collector of capacity 0 with the sample URLs queued. *)
Definition zero_capacity : Collector.CollectorAsync :=
  {| Collector.concurrency := 0;
     Collector.sema := 0;
     Collector.queued := Sample.sample_urls;
     Collector.in_flight := [];
     Collector.finished := [] |}.

End Coverage.

(** ** Facts on the builtins *)

Module PyFacts.

Example py_round_8 : round (8 # 1) 2 == 8.
Proof. reflexivity. Qed.

Example py_round_tie : round (0.125) 2 == 0.12 /\ round (0.135) 2 == 0.14.
Proof. split; reflexivity. Qed.

Example py_sorted_3 : sorted [3; 1; 2] = [1; 2; 3].
Proof. reflexivity. Qed.

Example py_replace_Z :
  replace_Z "2024-01-01T00:00:00Z" = "2024-01-01T00:00:00+00:00"%string.
Proof. reflexivity. Qed.

Lemma Qltb_true (x y : Q) : Qltb x y = true <-> x < y.
Proof.
  unfold Qltb. rewrite negb_true_iff, <- not_true_iff_false, Qle_bool_iff.
  split; [apply Qnot_le_lt | apply Qlt_not_le].
Qed.

Lemma Qltb_false (x y : Q) : Qltb x y = false <-> y <= x.
Proof.
  unfold Qltb. rewrite negb_false_iff. apply Qle_bool_iff.
Qed.

(** Case analysis on every comparison of the goal and the context. *)
Ltac case_Qltb :=
  repeat match goal with
  | |- context [Qltb ?a ?b] =>
      let E := fresh "E" in
      destruct (Qltb a b) eqn:E;
      [apply Qltb_true in E | apply Qltb_false in E]
  | H : context [Qltb ?a ?b] |- _ =>
      let E := fresh "E" in
      destruct (Qltb a b) eqn:E;
      [apply Qltb_true in E | apply Qltb_false in E]
  end.

Lemma py_min_Qmin (a b : Q) : py_min a b == Qmin a b.
Proof.
  unfold py_min. case_Qltb.
  - symmetry. apply Q.min_r. lra.
  - symmetry. apply Q.min_l. lra.
Qed.

Lemma py_max_Qmax (a b : Q) : py_max a b == Qmax a b.
Proof.
  unfold py_max. case_Qltb.
  - symmetry. apply Q.max_r. lra.
  - symmetry. apply Q.max_l. lra.
Qed.

#[export] Instance py_min_Proper : Proper (Qeq ==> Qeq ==> Qeq) py_min.
Proof.
  intros a a' Ha b b' Hb. unfold py_min. case_Qltb; lra.
Qed.

#[export] Instance py_max_Proper : Proper (Qeq ==> Qeq ==> Qeq) py_max.
Proof.
  intros a a' Ha b b' Hb. unfold py_max. case_Qltb; lra.
Qed.

Lemma round_half_even_range (x : Q) :
  (Qfloor x <= round_half_even x <= Qfloor x + 1)%Z.
Proof.
  unfold round_half_even. case_Qltb; try lia.
  destruct (Z.even (Qfloor x)); lia.
Qed.

Lemma round_half_even_mono (x y : Q) :
  x <= y -> (round_half_even x <= round_half_even y)%Z.
Proof.
  intros Hxy.
  pose proof (Qfloor_resp_le _ _ Hxy) as Hf.
  destruct (Z.eq_dec (Qfloor x) (Qfloor y)) as [Heq | Hne].
  - unfold round_half_even. rewrite <- Heq.
    case_Qltb; try lia; try lra.
    all: destruct (Z.even (Qfloor x)); lia.
  - pose proof (round_half_even_range x).
    pose proof (round_half_even_range y). lia.
Qed.

Lemma round_half_even_Z (z : Z) : round_half_even (inject_Z z) = z.
Proof.
  unfold round_half_even. rewrite Qfloor_Z.
  case_Qltb; try reflexivity; exfalso; lra.
Qed.

#[export] Instance round_half_even_Proper : Proper (Qeq ==> eq) round_half_even.
Proof.
  intros x y Hxy. apply Z.le_antisymm; apply round_half_even_mono; lra.
Qed.

Lemma pow10_pos (n : nat) : 0 < pow10 n.
Proof.
  unfold pow10. change 0 with (inject_Z 0). rewrite <- Zlt_Qlt.
  apply Z.pow_pos_nonneg; lia.
Qed.

Lemma round_mono (x y : Q) (n : nat) : x <= y -> round x n <= round y n.
Proof.
  intros Hxy. unfold round.
  pose proof (pow10_pos n) as Hp.
  apply Qmult_le_compat_r.
  - rewrite <- Zle_Qle. apply round_half_even_mono.
    apply Qmult_le_compat_r; lra.
  - apply Qlt_le_weak, Qinv_lt_0_compat, Hp.
Qed.

#[export] Instance round_Proper : Proper (Qeq ==> eq ==> Qeq) round.
Proof.
  intros x y Hxy n m <-. apply Qle_antisym; apply round_mono; lra.
Qed.

(** A float that is a whole number of [10^-n] is left alone. *)
Lemma round_exact (k : Z) (n : nat) : round (inject_Z k / pow10 n) n == inject_Z k / pow10 n.
Proof.
  unfold round. pose proof (pow10_pos n) as Hp.
  assert (E : inject_Z k / pow10 n * pow10 n == inject_Z k) by (field; lra).
  rewrite E, round_half_even_Z. reflexivity.
Qed.

Lemma round_Z (k : Z) (n : nat) : round (inject_Z k) n == inject_Z k.
Proof.
  unfold round, pow10. rewrite <- inject_Z_mult, round_half_even_Z, inject_Z_mult.
  pose proof (pow10_pos n) as Hp. unfold pow10 in Hp. field. lra.
Qed.

Lemma round_idempotent (x : Q) (n : nat) : round (round x n) n == round x n.
Proof. unfold round at 2 3. apply round_exact. Qed.

Lemma round_between (x : Q) (n : nat) (a b : Z) :
  inject_Z a <= x <= inject_Z b -> inject_Z a <= round x n <= inject_Z b.
Proof.
  intros [Ha Hb]. split.
  - rewrite <- (round_Z a n). now apply round_mono.
  - rewrite <- (round_Z b n). now apply round_mono.
Qed.

(** The error of [round(x, n)] is at most half a unit of the last place. *)
Lemma round_half_even_error (x : Q) :
  Qabs (inject_Z (round_half_even x) - x) <= 1 # 2.
Proof.
  pose proof (Qfloor_le x) as Hlo. pose proof (Qlt_floor x) as Hhi.
  rewrite inject_Z_plus in Hhi. change (inject_Z 1) with 1 in Hhi.
  apply Qabs_Qle_condition.
  unfold round_half_even. case_Qltb.
  - lra.
  - rewrite inject_Z_plus. change (inject_Z 1) with 1. lra.
  - destruct (Z.even (Qfloor x));
      [| rewrite inject_Z_plus; change (inject_Z 1) with 1]; lra.
Qed.

(** *** [sorted] returns a sorted permutation *)

Lemma insert_Permutation (x : Q) (l : list Q) : Permutation (x :: l) (insert x l).
Proof.
  induction l as [| y t IH]; cbn [insert].
  - apply Permutation_refl.
  - destruct (Qle_bool x y).
    + apply Permutation_refl.
    + apply perm_trans with (y :: x :: t); [apply perm_swap |].
      apply perm_skip, IH.
Qed.

Lemma sorted_Permutation (l : list Q) : Permutation l (sorted l).
Proof.
  induction l as [| x t IH]; cbn [sorted].
  - apply perm_nil.
  - apply perm_trans with (x :: sorted t); [apply perm_skip, IH |].
    apply insert_Permutation.
Qed.

Lemma sorted_length (l : list Q) : List.length (sorted l) = List.length l.
Proof. symmetry. apply Permutation_length, sorted_Permutation. Qed.

Lemma insert_StronglySorted (x : Q) (l : list Q) :
  StronglySorted Qle l -> StronglySorted Qle (insert x l).
Proof.
  induction 1 as [| y t Ht IH Hy]; cbn [insert].
  - constructor; constructor.
  - destruct (Qle_bool x y) eqn:E.
    + apply Qle_bool_iff in E. constructor.
      * now constructor.
      * constructor; [exact E |].
        eapply Forall_impl; [| exact Hy]. intros z Hz. cbv beta in Hz. lra.
    + assert (Hyx : y <= x).
      { apply Qlt_le_weak, Qnot_le_lt. intros H. apply Qle_bool_iff in H. congruence. }
      constructor; [exact IH |].
      apply (Permutation_Forall (insert_Permutation x t)).
      now constructor.
Qed.

Lemma sorted_StronglySorted (l : list Q) : StronglySorted Qle (sorted l).
Proof.
  induction l as [| x t IH]; cbn [sorted].
  - constructor.
  - apply insert_StronglySorted, IH.
Qed.

Lemma StronglySorted_nth (s : list Q) :
  StronglySorted Qle s ->
  forall i j, (i <= j < List.length s)%nat -> nth i s 0 <= nth j s 0.
Proof.
  induction 1 as [| x t Ht IH Hx]; intros i j Hij; cbn [List.length] in Hij.
  - lia.
  - destruct j as [| j].
    + replace i with 0%nat by lia. lra.
    + destruct i as [| i]; cbn [nth].
      * rewrite Forall_forall in Hx. apply Hx, nth_In. lia.
      * apply IH. lia.
Qed.

End PyFacts.

(** ** Facts about the functions in double precision *)

Module Binary64Facts.

Import Binary64.

(** Known answers of Python's [round]. *)
Example binary64_round_examples :
  round 2.675 2 = 2.67%float /\ round 0.125 2 = 0.12%float /\
  round 0.135 2 = 0.14%float /\ round 27.714999999999996 2 = 27.71%float /\
  round (-0.001) 2 = (-0)%float /\ round infinity 2 = infinity /\
  round 1e308 2 = 1e308%float.
Proof. repeat split; vm_compute; reflexivity. Qed.

(** *** The order of the floats *)

Lemma SFleb_trans (x y z : spec_float) :
  SFleb x y = true -> SFleb y z = true -> SFleb x z = true.
Proof.
  unfold SFleb, SFcompare.
  destruct x as [sx | sx | | sx mx ex], y as [sy | sy | | sy my ey],
    z as [sz | sz | | sz mz ez];
    try destruct sx; try destruct sy; try destruct sz;
    try discriminate; try reflexivity;
    change (Pos.compare_cont Eq) with Pos.compare;
    repeat match goal with
      | |- context [(?a ?= ?b)%Z] => destruct (Z.compare_spec a b); subst
      | |- context [(?a ?= ?b)%positive] => destruct (Pos.compare_spec a b); subst
      end;
    cbn; try discriminate; try reflexivity; intros; exfalso; lia.
Qed.

Lemma SFleb_total (x y : spec_float) :
  x <> S754_nan -> y <> S754_nan -> SFltb y x = false -> SFleb x y = true.
Proof.
  unfold SFleb, SFltb, SFcompare.
  destruct x as [sx | sx | | sx mx ex], y as [sy | sy | | sy my ey];
    try destruct sx; try destruct sy;
    try discriminate; try reflexivity; try congruence;
    change (Pos.compare_cont Eq) with Pos.compare; intros _ _;
    repeat match goal with
      | |- context [(?a ?= ?b)%Z] => destruct (Z.compare_spec a b); subst
      | |- context [(?a ?= ?b)%positive] => destruct (Pos.compare_spec a b); subst
      end;
    cbn; try discriminate; try reflexivity; intros; exfalso; lia.
Qed.

Lemma SFleb_refl (x : spec_float) : x <> S754_nan -> SFleb x x = true.
Proof.
  unfold SFleb, SFcompare.
  destruct x as [sx | sx | | sx mx ex]; try destruct sx; try reflexivity; try congruence;
    intros _; rewrite Z.compare_refl; change (Pos.compare_cont Eq) with Pos.compare;
    rewrite Pos.compare_refl; reflexivity.
Qed.

Lemma is_nan_Prim2SF (x : float) : is_nan x = false -> Prim2SF x <> S754_nan.
Proof.
  unfold is_nan. rewrite eqb_spec. intros H E. rewrite E in H. discriminate H.
Qed.

Lemma float_le_refl (x : float) : is_nan x = false -> Spec.float_le x x.
Proof.
  intros H. unfold Spec.float_le. rewrite leb_spec.
  apply SFleb_refl, is_nan_Prim2SF, H.
Qed.

Lemma float_le_trans (x y z : float) :
  Spec.float_le x y -> Spec.float_le y z -> Spec.float_le x z.
Proof. unfold Spec.float_le. rewrite !leb_spec. apply SFleb_trans. Qed.

Lemma ltb_false_float_le (x y : float) :
  is_nan x = false -> is_nan y = false -> (y <? x)%float = false -> Spec.float_le x y.
Proof.
  unfold Spec.float_le. rewrite ltb_spec, leb_spec. intros Hx Hy.
  apply SFleb_total; apply is_nan_Prim2SF; assumption.
Qed.

Lemma ltb_float_le (x y : float) : (x <? y)%float = true -> Spec.float_le x y.
Proof.
  unfold Spec.float_le. rewrite ltb_spec, leb_spec. unfold SFltb, SFleb.
  destruct (SFcompare _ _) as [[| |] |]; congruence.
Qed.

(** *** [sorted] returns a sorted permutation *)

Lemma binary64_insert_Permutation (x : float) (l : list float) :
  Permutation (x :: l) (insert x l).
Proof.
  induction l as [| y t IH]; cbn [insert]; [apply Permutation_refl |].
  destruct (y <? x)%float; [| apply Permutation_refl].
  apply perm_trans with (y :: x :: t); [apply perm_swap | apply perm_skip, IH].
Qed.

Lemma binary64_sorted_Permutation (l : list float) : Permutation l (sorted l).
Proof.
  induction l as [| x t IH]; cbn [sorted]; [apply perm_nil |].
  apply perm_trans with (x :: sorted t); [apply perm_skip, IH |].
  apply binary64_insert_Permutation.
Qed.

Lemma binary64_sorted_length (l : list float) : List.length (sorted l) = List.length l.
Proof. symmetry. apply Permutation_length, binary64_sorted_Permutation. Qed.

Lemma binary64_sorted_not_nan (l : list float) :
  Forall (fun x => is_nan x = false) l -> Forall (fun x => is_nan x = false) (sorted l).
Proof.
  intros H. apply Forall_forall. intros x Hx.
  rewrite Forall_forall in H. apply H.
  apply (Permutation_in _ (Permutation_sym (binary64_sorted_Permutation l)) Hx).
Qed.

Lemma binary64_insert_StronglySorted (x : float) (l : list float) :
  is_nan x = false -> Forall (fun y => is_nan y = false) l ->
  StronglySorted Spec.float_le l -> StronglySorted Spec.float_le (insert x l).
Proof.
  intros Hx Hnan Hs. induction Hs as [| y t Ht IH Hy]; cbn [insert].
  - constructor; constructor.
  - inversion Hnan as [| y' t' Hy' Ht']; subst.
    destruct (y <? x)%float eqn:E.
    + constructor; [apply IH, Ht' |].
      apply (Permutation_Forall (binary64_insert_Permutation x t)).
      constructor; [apply ltb_float_le, E | exact Hy].
    + assert (Hxy : Spec.float_le x y) by (apply ltb_false_float_le; assumption).
      constructor; [constructor; assumption |].
      constructor; [exact Hxy |].
      eapply Forall_impl; [| exact Hy].
      intros z Hz. exact (float_le_trans _ _ _ Hxy Hz).
Qed.

Lemma binary64_sorted_StronglySorted (l : list float) :
  Forall (fun x => is_nan x = false) l -> StronglySorted Spec.float_le (sorted l).
Proof.
  induction 1 as [| x t Hx Ht IH]; cbn [sorted]; [constructor |].
  apply binary64_insert_StronglySorted; [exact Hx | apply binary64_sorted_not_nan, Ht | exact IH].
Qed.

(** *** [median] and [compute_net_profit] *)

Lemma binary64_median_sorted (nums : list float) :
  nums <> [] ->
  median nums
  = let s := sorted nums in
    let n := List.length nums in
    if Nat.eqb (n mod 2) 1 then Some (nth (n / 2) s 0%float)
    else Some ((nth (n / 2 - 1) s 0 + nth (n / 2) s 0) / 2.0)%float.
Proof.
  intros Hne. unfold median. destruct nums as [| x t]; [congruence |].
  cbv zeta. now rewrite binary64_sorted_length.
Qed.

(** In double precision the net profit of an asking price of 8.34 against
    an estimate of 48.95 is 27.71: the difference computed by lines 68-70
    is 27.714999999999996, below the half cent. *)
Example binary64_net_profit_below_half_cent :
  Spec.net_binary64 48.95 8.34 0.10 5.0 3.0 = 27.714999999999996%float /\
  compute_net_profit 8.34 (Some 48.95%float) VINTED_FEES_PCT AVG_SHIPPING_COST
    DEFAULT_REFURB_COST = Some 27.71%float.
Proof. split; vm_compute; reflexivity. Qed.

(** The mean of two central prices is the float sum halved: it is infinite
    when the sum overflows. *)
Example binary64_median_overflow : median [1e308; 1e308]%float = Some infinity.
Proof. vm_compute. reflexivity. Qed.



End Binary64Facts.

(** ** Facts on the scoring engine *)

Module ScoringFacts.

Import Scoring PyFacts.

(** Unfold [clamp] and split on its two comparisons. *)
Ltac case_clamp := unfold clamp, py_max, py_min in *; case_Qltb.

Lemma clamp_bounds (x lo hi : Q) : lo <= hi -> lo <= clamp x lo hi <= hi.
Proof. intros H. case_clamp; lra. Qed.

Lemma clamp_inside (x lo hi : Q) : lo <= x <= hi -> clamp x lo hi == x.
Proof. intros H. case_clamp; lra. Qed.

Lemma clamp_mono (x y lo hi : Q) : x <= y -> clamp x lo hi <= clamp y lo hi.
Proof. intros H. case_clamp; lra. Qed.

Lemma clamp_below (x lo hi : Q) : lo <= hi -> x <= lo -> clamp x lo hi == lo.
Proof. intros H1 H2. case_clamp; lra. Qed.

Lemma clamp_above (x lo hi : Q) : lo <= hi -> hi <= x -> clamp x lo hi == hi.
Proof. intros H1 H2. case_clamp; lra. Qed.

#[export] Instance clamp_Proper : Proper (Qeq ==> Qeq ==> Qeq ==> Qeq) clamp.
Proof.
  intros x x' Hx lo lo' Hlo hi hi' Hhi. case_clamp; lra.
Qed.

Example clamp_examples :
  clamp 0.3 0 1 == 0.3 /\ clamp (-2) 0 1 == 0 /\ clamp 7 0 1 == 1.
Proof. repeat split; reflexivity. Qed.

(** *** Risk penalty *)

Lemma risk_penalty_additive (pq : Q) (ab sl : bool) :
  risk_penalty pq ab sl == Spec.risk_increments (Qltb pq 0.5) ab sl.
Proof.
  unfold risk_penalty, Spec.risk_increments.
  destruct (Qltb pq 0.5), ab, sl; reflexivity.
Qed.

Lemma risk_penalty_bounds (pq : Q) (ab sl : bool) :
  0 <= risk_penalty pq ab sl <= 0.85.
Proof.
  rewrite risk_penalty_additive. unfold Spec.risk_increments.
  destruct (Qltb pq 0.5), ab, sl; lra.
Qed.

(** C4, as the specification words it, fails: with the three conditions met
    the penalty is 0.25 + 0.35 + 0.25 = 0.85, not 1.0. *)
Lemma risk_penalty_all_conditions_is_not_1 :
  risk_penalty 0.2 true true == 0.85 /\ ~ risk_penalty 0.2 true true == 1.0.
Proof.
  split.
  - reflexivity.
  - intros H. vm_compute in H. discriminate H.
Qed.

(** C4 (amended): the risk penalty is the sum of the increments +0.25 when
    [photo_quality < 0.5], +0.35 when [ambiguous_brand], +0.25 when
    [suspect_low_price]; it does not decrease when conditions flip from not
    met to met; its maximum is 0.85, and it is attained exactly when the three
    conditions hold (the cap of 1.0 is never reached). *)
Theorem risk_penalty_additive_monotone_max (pq pq' : Q) (ab ab' sl sl' : bool) :
  (pq < 0.5 -> pq' < 0.5) ->
  (ab = true -> ab' = true) ->
  (sl = true -> sl' = true) ->
  risk_penalty pq ab sl == Spec.risk_increments (Qltb pq 0.5) ab sl /\
  risk_penalty pq ab sl <= risk_penalty pq' ab' sl' /\
  risk_penalty pq' ab' sl' <= 0.85 /\
  (risk_penalty pq' ab' sl' == 0.85 <-> pq' < 0.5 /\ ab' = true /\ sl' = true).
Proof.
  intros Hpq Hab Hsl.
  split; [apply risk_penalty_additive |].
  rewrite !risk_penalty_additive. unfold Spec.risk_increments.
  rewrite <- (Qltb_true pq'), <- (Qltb_true pq) in *.
  destruct (Qltb pq 0.5), (Qltb pq' 0.5), ab, ab', sl, sl';
    try (specialize (Hpq eq_refl)); try (specialize (Hab eq_refl));
    try (specialize (Hsl eq_refl)); try discriminate;
    (split; [lra |]); (split; [lra |]);
    (split; [intros H; try (vm_compute in H; discriminate H); auto
            | intros (H1 & H2 & H3); try discriminate; reflexivity]).
Qed.

Lemma risk_penalty_additive_monotone_max_witness :
  risk_penalty 1.0 false false <= risk_penalty 0.2 true true /\
  risk_penalty 0.2 true true <= 0.85.
Proof.
  assert (H1 : 1.0 < 0.5 -> 0.2 < 0.5) by reflexivity.
  assert (H2 : false = true -> true = true) by reflexivity.
  pose proof (risk_penalty_additive_monotone_max 1.0 0.2 false true false true
                H1 H2 H2) as (_ & Hmono & Hmax & _).
  exact (conj Hmono Hmax).
Defined.

(** *** Velocity *)

(** Division by a literal is multiplication by a constant. *)
Ltac div_literal :=
  unfold Qdiv;
  repeat match goal with
  | |- context [Qinv (Qmake ?n ?d)] =>
      let v := eval vm_compute in (Qinv (Qmake n d)) in
      change (Qinv (Qmake n d)) with v
  | |- context [Qinv (Qmake ?n ?d * Qmake ?n' ?d')] =>
      let v := eval vm_compute in (Qinv (Qmake n d * Qmake n' d')) in
      change (Qinv (Qmake n d * Qmake n' d')) with v
  end.

(** Bounds of the [clamp] under the goal. *)
Ltac clamp_range :=
  match goal with
  | |- context [clamp ?x ?lo ?hi] => pose proof (clamp_bounds x lo hi)
  end.

(** The guard of line 81 keeps the division away from zero. *)
Lemma price_ratio_defined (a m : Q) :
  price_ratio a m = Ok (if Qltb 0 m then a / m else 1.0).
Proof.
  unfold price_ratio, truediv. destruct (Qltb 0 m) eqn:E; [| reflexivity].
  apply Qltb_true in E.
  destruct (Qeq_bool m 0) eqn:E0; [| reflexivity].
  apply Qeq_bool_eq in E0. lra.
Qed.

Lemma price_ratio_mono (a1 a2 m : Q) :
  a1 <= a2 ->
  (if Qltb 0 m then a1 / m else 1.0) <= (if Qltb 0 m then a2 / m else 1.0).
Proof.
  intros H. case_Qltb; [| lra].
  apply Qmult_le_compat_r; [exact H |]. apply Qlt_le_weak, Qinv_lt_0_compat, E.
Qed.

Lemma price_factor_bounds (r : Q) : 0 <= price_factor r <= 1.
Proof.
  unfold price_factor.
  pose proof (clamp_bounds (1.5 - r) 0.0 1.5) as H.
  set (c := clamp _ _ _) in *. div_literal. lra.
Qed.

Lemma price_factor_antitone (r1 r2 : Q) : r1 <= r2 -> price_factor r2 <= price_factor r1.
Proof.
  intros H. unfold price_factor.
  apply Qmult_le_compat_r; [| div_literal; lra].
  apply clamp_mono. lra.
Qed.

Lemma brand_bounds (b : Q) : 0 <= brand b <= 1.
Proof.
  unfold brand. pose proof (clamp_bounds b 0.0 1.0). lra.
Qed.

Lemma profit_norm_bounds (np : option Q) : 0 <= profit_norm np <= 1.
Proof.
  unfold profit_norm. destruct np as [x |]; [| lra].
  clamp_range. lra.
Qed.

Lemma profit_norm_mono (x y : option Q) :
  Spec.option_le x y -> profit_norm x <= profit_norm y.
Proof.
  destruct x as [x |], y as [y |]; cbn [Spec.option_le]; try tauto; [| lra].
  intros H. unfold profit_norm. apply clamp_mono.
  apply Qmult_le_compat_r; [| vm_compute; discriminate].
  lra.
Qed.

(** With the default bounds the division of line 121 is by 195. *)
Lemma final_score_defaults (np : option Q) (vel rk : Q) :
  final_score np vel rk MIN_PROFIT_DESIRABLE MAX_PROFIT_CONSIDERED
  = Ok {| final_score_pct :=
            round (clamp (WEIGHT_PROFIT * profit_norm np + WEIGHT_VELOCITY * vel
                          - WEIGHT_RISK * rk) 0.0 1.0 * 100) 2;
          final_profit_normalized := round (profit_norm np) 4;
          final_velocity := round vel 4;
          final_risk := round rk 4;
          final_net_profit := option_map (fun x => round x 2) np |}.
Proof.
  unfold final_score. destruct np as [x |]; reflexivity.
Qed.

(** With equal bounds the same division raises. *)
Lemma final_score_equal_bounds (x vel rk b : Q) :
  final_score (Some x) vel rk b b = Raise ZeroDivisionError.
Proof.
  unfold final_score, truediv.
  assert (E : Qeq_bool (b - b) 0 = true) by (apply Qeq_eq_bool; lra).
  now rewrite E.
Qed.

(** *** Net profit and market estimate *)

Lemma compute_net_profit_None_iff (a : Q) (m : option Q) (f s r : Q) :
  compute_net_profit a m f s r = None <-> m = None.
Proof.
  unfold compute_net_profit. destruct m; split; congruence.
Qed.

Lemma compute_net_profit_antitone (a1 a2 : Q) (m : option Q) (f s r : Q) :
  a1 <= a2 -> Spec.option_le (compute_net_profit a2 m f s r) (compute_net_profit a1 m f s r).
Proof.
  intros H. unfold compute_net_profit. destruct m as [m |]; cbn [Spec.option_le]; [| exact I].
  apply round_mono. lra.
Qed.

Lemma option_le_round (x y : option Q) (n : nat) :
  Spec.option_le x y ->
  Spec.option_le (option_map (fun v => round v n) x) (option_map (fun v => round v n) y).
Proof.
  destruct x, y; cbn [Spec.option_le option_map]; try tauto. apply round_mono.
Qed.

Lemma median_None_iff (nums : list Q) : median nums = None <-> nums = [].
Proof.
  unfold median. destruct nums as [| x t].
  - tauto.
  - split; [| discriminate].
    destruct (Nat.eqb _ 1); discriminate.
Qed.

Lemma market_est_None_iff (l : Listing) : market_est l = None <-> Spec.market_unavailable l.
Proof.
  unfold market_est, Spec.market_unavailable, estimate_market_price.
  destruct (market_price_est l) as [m |].
  - split; [discriminate | intros [H _]; discriminate H].
  - rewrite median_None_iff. tauto.
Qed.

Lemma market_est_with_asking (l : Listing) (a : Q) :
  market_est (Spec.with_asking l a) = market_est l.
Proof. reflexivity. Qed.

(** *** The median *)

Lemma count_le_cons (m x : Q) (l : list Q) :
  Spec.count_le m (x :: l) = ((if Qle_bool x m then 1 else 0) + Spec.count_le m l)%nat.
Proof. unfold Spec.count_le. cbn [filter]. now destruct (Qle_bool x m). Qed.

Lemma count_le_Permutation (m : Q) (l l' : list Q) :
  Permutation l l' -> Spec.count_le m l = Spec.count_le m l'.
Proof.
  induction 1; rewrite ?count_le_cons; lia.
Qed.

Lemma count_le_nth (s : list Q) :
  StronglySorted Qle s ->
  forall k m, (k < List.length s)%nat -> nth k s 0 <= m -> (k + 1 <= Spec.count_le m s)%nat.
Proof.
  induction 1 as [| x t Ht IH Hx]; intros k m Hk Hm; cbn [List.length] in Hk; [lia |].
  rewrite count_le_cons.
  assert (Hxm : x <= m).
  { destruct k as [| k]; [exact Hm |]. cbn [nth] in Hm.
    rewrite Forall_forall in Hx. specialize (Hx (nth k t 0)).
    assert (x <= nth k t 0) by (apply Hx, nth_In; lia). lra. }
  apply Qle_bool_iff in Hxm. rewrite Hxm. cbv iota.
  destruct k as [| k]; [lia |].
  cbn [nth] in Hm. cbn [List.length] in Hk.
  assert (Hk' : (k < List.length t)%nat) by lia.
  specialize (IH k m Hk' Hm). lia.
Qed.

Lemma median_sorted (nums : list Q) :
  nums <> [] ->
  median nums =
    let s := sorted nums in
    let n := List.length nums in
    if Nat.eqb (n mod 2) 1 then Some (nth (n / 2) s 0)
    else Some ((nth (n / 2 - 1) s 0 + nth (n / 2) s 0) / 2.0).
Proof.
  intros Hne. unfold median. destruct nums as [| x t]; [congruence |].
  cbv zeta. now rewrite sorted_length.
Qed.

(** *** Results that hold whatever the runtime answers *)

Section Runtime.

Variable ln : Q -> Q.
Variable fromisoformat : string -> option datetime.

#[local] Abbreviation recency_factor := (recency_factor fromisoformat).
#[local] Abbreviation velocity_score := (velocity_score ln fromisoformat).
#[local] Abbreviation score_listing := (score_listing ln fromisoformat).

Lemma recency_factor_bounds (now : Q) (p : option string) :
  0 <= recency_factor now p <= 1.
Proof.
  unfold Scoring.recency_factor.
  destruct p as [s |]; [| lra].
  destruct (truthy s); [| lra].
  destruct (fromisoformat (replace_Z s)) as [[dt | dt] |]; try lra.
  clamp_range. lra.
Qed.

(** With non-negative counters the argument of [math.log] is at least 1. *)
Lemma math_log_counters (likes views : Z) :
  (0 <= likes)%Z -> (0 <= views)%Z ->
  math_log ln (1 + inject_Z likes + inject_Z views / 20.0)
  = Ok (ln (1 + inject_Z likes + inject_Z views / 20.0)).
Proof.
  intros Hl Hv. unfold math_log.
  rewrite Zle_Qle in Hl, Hv. change (inject_Z 0) with 0 in *.
  assert (H : 0 < 1 + inject_Z likes + inject_Z views / 20.0) by (div_literal; lra).
  apply Qltb_true in H. now rewrite H.
Qed.

Lemma social_counters (likes views : Z) :
  (0 <= likes)%Z -> (0 <= views)%Z ->
  social ln likes views
  = Ok (clamp (ln (1 + inject_Z likes + inject_Z views / 20.0) / 5.0) 0.0 1.0).
Proof.
  intros Hl Hv. unfold social. now rewrite math_log_counters.
Qed.

(** A counter below -1 takes the logarithm out of its domain. *)
Lemma social_raises (likes views : Z) :
  1 + inject_Z likes + inject_Z views / 20.0 <= 0 ->
  social ln likes views = Raise ValueError.
Proof.
  intros H. unfold social, math_log. apply Qltb_false in H. now rewrite H.
Qed.

Lemma social_bounds (likes views : Z) (s : Q) :
  social ln likes views = Ok s -> 0 <= s <= 1.
Proof.
  unfold social, math_log.
  destruct (Qltb 0 _); cbn [bind]; [| discriminate].
  intros [= <-]. clamp_range. lra.
Qed.

Lemma velocity_score_counters now a m p likes views b :
  (0 <= likes)%Z -> (0 <= views)%Z ->
  velocity_score now a m p likes views b
  = Ok match m with
       | None => 0.0
       | Some m =>
           clamp (0.5 * price_factor (if Qltb 0 m then a / m else 1.0)
                  + 0.3 * recency_factor now p
                  + 0.15 * clamp (ln (1 + inject_Z likes + inject_Z views / 20.0) / 5.0)
                             0.0 1.0
                  + 0.05 * brand b) 0.0 1.0
       end.
Proof.
  intros Hl Hv. unfold Scoring.velocity_score. destruct m as [m |]; [| reflexivity].
  rewrite price_ratio_defined, social_counters by assumption. reflexivity.
Qed.

Lemma velocity_score_bounds now a m p likes views b v :
  velocity_score now a m p likes views b = Ok v -> 0 <= v <= 1.
Proof.
  unfold Scoring.velocity_score. destruct m as [m |].
  - rewrite price_ratio_defined. cbn [bind].
    destruct (social ln likes views) as [s | e]; cbn [bind]; [| discriminate].
    intros [= <-]. clamp_range. lra.
  - intros [= <-]. lra.
Qed.

Lemma velocity_score_antitone now a1 a2 m p likes views b v1 v2 :
  a1 <= a2 ->
  velocity_score now a1 m p likes views b = Ok v1 ->
  velocity_score now a2 m p likes views b = Ok v2 ->
  v2 <= v1.
Proof.
  intros H. unfold Scoring.velocity_score. destruct m as [m |].
  - rewrite !price_ratio_defined. cbn [bind].
    destruct (social ln likes views) as [s | e]; cbn [bind]; [| discriminate].
    intros [= <-] [= <-]. apply clamp_mono.
    pose proof (price_factor_antitone _ _ (price_ratio_mono a1 a2 m H)). lra.
  - intros [= <-] [= <-]. lra.
Qed.

Lemma score_listing_unfold (now : Q) (l : Listing) :
  score_listing now l
  = (vel <- velocity_score now (get (asking_price l) 0.0) (market_est l)
             (posted_at l) (get (likes l) 0%Z) (get (views l) 0%Z)
             (get (brand_popularity l) 0.5) ;;
     Ok (result_of l vel)).
Proof.
  unfold Scoring.score_listing.
  destruct (velocity_score _ _ _ _ _ _ _) as [vel | e]; cbn [bind]; [| reflexivity].
  rewrite final_score_defaults. reflexivity.
Qed.

(** On a listing of the data model [score_listing] returns. *)
Lemma score_listing_counters (now : Q) (l : Listing) :
  Spec.counters_nonneg l ->
  exists vel,
    velocity_score now (get (asking_price l) 0.0) (market_est l) (posted_at l)
      (get (likes l) 0%Z) (get (views l) 0%Z) (get (brand_popularity l) 0.5) = Ok vel /\
    score_listing now l = Ok (result_of l vel).
Proof.
  intros [Hl Hv]. rewrite score_listing_unfold.
  rewrite (velocity_score_counters now _ (market_est l) (posted_at l) _ _ _ Hl Hv).
  eexists. split; reflexivity.
Qed.

(** Whenever [score_listing] returns, on any listing, the raw velocity lies
    in [0,1]. *)
Lemma score_listing_returns_bounded (now : Q) (l : Listing) (r : ScoreResult) :
  score_listing now l = Ok r ->
  0 <= velocity_raw (raw r) <= 1 /\ 0 <= risk_raw (raw r) <= 0.85.
Proof.
  rewrite score_listing_unfold.
  destruct (velocity_score _ _ _ _ _ _ _) as [vel | e] eqn:Hvel; cbn [bind];
    [| discriminate].
  intros [= <-]. cbn [result_of raw velocity_raw risk_raw].
  split; [exact (velocity_score_bounds _ _ _ _ _ _ _ _ Hvel) | apply risk_penalty_bounds].
Qed.

End Runtime.

(** *** Bounds, absence of an estimate, asking price *)

Section Claims.

Variable ln : Q -> Q.
Variable fromisoformat : string -> option datetime.

#[local] Abbreviation score_listing' := (score_listing ln fromisoformat).

(** C2: for every listing (any asking price, any or no market estimate, any
    likes, views, brand popularity, photo quality and flags) every result
    that [score_listing] returns has its score in [0,100] and its components
    velocity, risk and profit_normalized in [0,1], rounded or raw; and
    [score_listing] does return a result when likes and views are counters
    of the data model. *)
Theorem score_and_components_bounded (now : Q) (l : Listing) :
  (forall r, score_listing' now l = Ok r ->
     0 <= score r <= 100 /\
     0 <= velocity (components r) <= 1 /\
     0 <= risk (components r) <= 1 /\
     0 <= profit_normalized (components r) <= 1 /\
     0 <= velocity_raw (raw r) <= 1 /\
     0 <= risk_raw (raw r) <= 1) /\
  (Spec.counter (get (likes l) 0%Z) -> Spec.counter (get (views l) 0%Z) ->
   exists r, score_listing' now l = Ok r).
Proof.
  split.
  - intros r. rewrite score_listing_unfold.
    destruct (velocity_score _ _ _ _ _ _ _ _ _) as [vel | e] eqn:Hvel; cbn [bind];
      [| discriminate].
    intros [= <-].
    apply velocity_score_bounds in Hvel.
    pose proof (risk_penalty_bounds (get (photo_quality l) 1.0)
                  (get (ambiguous_brand l) false) (get (suspect_low_price l) false)) as Hrk.
    cbn [result_of score components raw velocity risk profit_normalized velocity_raw risk_raw].
    repeat match goal with |- (_ <= _ <= _) /\ _ => split end.
    + apply (round_between _ _ 0 100). clamp_range.
      change (inject_Z 0) with 0. change (inject_Z 100) with 100. lra.
    + apply (round_between _ _ 0 1), Hvel.
    + apply (round_between _ _ 0 1). change (inject_Z 0) with 0.
      change (inject_Z 1) with 1. lra.
    + apply (round_between _ _ 0 1), profit_norm_bounds.
    + exact Hvel.
    + lra.
  - intros [Hl _] [Hv _].
    destruct (score_listing_counters ln fromisoformat now l (conj Hl Hv)) as (vel & _ & Hr).
    eexists. exact Hr.
Qed.

(** C3: the result of [score_listing] has no net profit exactly when no
    market estimate is available (none supplied and no historical prices),
    and in that case its velocity is 0. *)
Theorem net_profit_absent_iff_no_market_estimate (now : Q) (l : Listing) :
  Spec.counters_nonneg l ->
  exists r, score_listing' now l = Ok r /\
    (net_profit r = None <-> Spec.market_unavailable l) /\
    (net_profit_raw (raw r) = None <-> Spec.market_unavailable l) /\
    (Spec.market_unavailable l ->
       velocity_raw (raw r) == 0 /\ velocity (components r) == 0).
Proof.
  intros Hc.
  destruct (score_listing_counters ln fromisoformat now l Hc) as (vel & Hvel & ->).
  eexists. split; [reflexivity |].
  cbn [result_of net_profit raw components net_profit_raw velocity_raw velocity].
  rewrite <- market_est_None_iff.
  split; [| split].
  - rewrite <- (compute_net_profit_None_iff (get (asking_price l) 0.0) (market_est l)
                  VINTED_FEES_PCT AVG_SHIPPING_COST DEFAULT_REFURB_COST).
    destruct (compute_net_profit _ _ _ _ _); cbn [option_map]; split; congruence.
  - apply compute_net_profit_None_iff.
  - intros Hnone. rewrite Hnone in Hvel. cbn in Hvel. injection Hvel as <-.
    split; reflexivity.
Qed.

(** C5: with the market estimate and all other fields fixed, raising the
    asking price from [a1] to [a2] raises neither the net profit, nor
    profit_normalized, nor the final score. *)
Theorem score_antitone_in_asking_price (now : Q) (l : Listing) (a1 a2 : Q) :
  Spec.counters_nonneg l ->
  a1 <= a2 ->
  exists r1 r2,
    score_listing' now (Spec.with_asking l a1) = Ok r1 /\
    score_listing' now (Spec.with_asking l a2) = Ok r2 /\
    result_market_price_est r2 = result_market_price_est r1 /\
    Spec.option_le (net_profit r2) (net_profit r1) /\
    Spec.option_le (net_profit_raw (raw r2)) (net_profit_raw (raw r1)) /\
    profit_normalized (components r2) <= profit_normalized (components r1) /\
    score r2 <= score r1.
Proof.
  intros Hc Ha.
  destruct (score_listing_counters ln fromisoformat now (Spec.with_asking l a1) Hc)
    as (v1 & Hv1 & ->).
  destruct (score_listing_counters ln fromisoformat now (Spec.with_asking l a2) Hc)
    as (v2 & Hv2 & ->).
  do 2 eexists. do 2 (split; [reflexivity |]).
  cbn [Spec.with_asking asking_price posted_at likes views brand_popularity get] in Hv1, Hv2.
  rewrite market_est_with_asking in Hv1, Hv2.
  pose proof (velocity_score_antitone _ _ _ _ _ _ _ _ _ _ _ _ Ha Hv1 Hv2) as Hvel.
  pose proof (compute_net_profit_antitone a1 a2 (market_est l) VINTED_FEES_PCT
                AVG_SHIPPING_COST DEFAULT_REFURB_COST Ha) as Hnet.
  pose proof (profit_norm_mono _ _ Hnet) as Hpn.
  cbn [result_of result_market_price_est net_profit raw net_profit_raw components
       profit_normalized score Spec.with_asking asking_price photo_quality ambiguous_brand
       suspect_low_price get].
  rewrite !market_est_with_asking.
  split; [reflexivity |].
  split; [apply option_le_round, Hnet |].
  split; [exact Hnet |].
  split; [apply round_mono, Hpn |].
  apply round_mono. apply Qmult_le_compat_r; [| lra].
  apply clamp_mono. unfold WEIGHT_PROFIT, WEIGHT_VELOCITY, WEIGHT_RISK. lra.
Qed.

End Claims.

Lemma scenario_counters : Spec.counters_nonneg Sample.scenario.
Proof. split; discriminate. Defined.

Lemma empty_counters : Spec.counters_nonneg Sample.empty.
Proof. split; discriminate. Defined.

Lemma scenario_counter_likes : Spec.counter (get (likes Sample.scenario) 0%Z).
Proof. split; [discriminate | reflexivity]. Defined.

Lemma scenario_counter_views : Spec.counter (get (views Sample.scenario) 0%Z).
Proof. split; [discriminate | reflexivity]. Defined.

Lemma score_and_components_bounded_witness :
  exists r,
    score_listing Sample.ln Sample.fromisoformat Sample.epoch_2024 Sample.scenario = Ok r /\
    0 <= score r <= 100 /\
    0 <= velocity (components r) <= 1 /\
    0 <= risk (components r) <= 1 /\
    0 <= profit_normalized (components r) <= 1 /\
    0 <= velocity_raw (raw r) <= 1 /\
    0 <= risk_raw (raw r) <= 1.
Proof.
  destruct (score_and_components_bounded Sample.ln Sample.fromisoformat Sample.epoch_2024
              Sample.scenario) as [Hbounds Hreturns].
  destruct (Hreturns scenario_counter_likes scenario_counter_views) as [r Hr].
  exists r. split; [exact Hr | exact (Hbounds r Hr)].
Defined.

Lemma net_profit_absent_iff_no_market_estimate_witness :
  exists r,
    score_listing Sample.ln Sample.fromisoformat Sample.epoch_2024 Sample.empty = Ok r /\
    (net_profit r = None <-> Spec.market_unavailable Sample.empty) /\
    (net_profit_raw (raw r) = None <-> Spec.market_unavailable Sample.empty) /\
    (Spec.market_unavailable Sample.empty ->
       velocity_raw (raw r) == 0 /\ velocity (components r) == 0).
Proof.
  exact (net_profit_absent_iff_no_market_estimate Sample.ln Sample.fromisoformat
           Sample.epoch_2024 Sample.empty empty_counters).
Defined.

Lemma score_antitone_in_asking_price_witness :
  exists r1 r2,
    score_listing Sample.ln Sample.fromisoformat Sample.epoch_2024
      (Spec.with_asking Sample.scenario 20) = Ok r1 /\
    score_listing Sample.ln Sample.fromisoformat Sample.epoch_2024
      (Spec.with_asking Sample.scenario 25) = Ok r2 /\
    result_market_price_est r2 = result_market_price_est r1 /\
    Spec.option_le (net_profit r2) (net_profit r1) /\
    Spec.option_le (net_profit_raw (raw r2)) (net_profit_raw (raw r1)) /\
    profit_normalized (components r2) <= profit_normalized (components r1) /\
    score r2 <= score r1.
Proof.
  refine (score_antitone_in_asking_price Sample.ln Sample.fromisoformat Sample.epoch_2024
            Sample.scenario 20 25 scenario_counters _).
  discriminate.
Defined.

(** *** Velocity against the formula of the specification *)

Lemma price_factor_spec (r : Q) : price_factor r == Spec.price_factor_of r.
Proof.
  unfold price_factor, Spec.price_factor_of. div_literal. case_clamp; lra.
Qed.

#[export] Instance price_factor_of_Proper : Proper (Qeq ==> Qeq) Spec.price_factor_of.
Proof.
  intros r r' Hr. unfold Spec.price_factor_of. div_literal. case_clamp; lra.
Qed.

Lemma price_factor_guarded_bounds (a m : Q) : 0 <= Spec.price_factor_guarded a m <= 1.
Proof.
  unfold Spec.price_factor_guarded. rewrite <- price_factor_spec. apply price_factor_bounds.
Qed.

Lemma price_factor_guarded_positive (a m : Q) :
  0 < m -> Spec.price_factor_guarded a m == Spec.price_factor a m.
Proof.
  intros H. unfold Spec.price_factor_guarded, Spec.price_factor.
  apply Qltb_true in H. now rewrite H.
Qed.

Lemma price_factor_guarded_nonpositive (a m : Q) :
  m <= 0 -> Spec.price_factor_guarded a m == 1 # 3.
Proof.
  intros H. unfold Spec.price_factor_guarded.
  apply Qltb_false in H. rewrite H. reflexivity.
Qed.

Lemma brand_spec (b : Q) : brand b == Spec.brand_factor b.
Proof. unfold brand, Spec.brand_factor. case_clamp; lra. Qed.

#[export] Instance combine_Proper : Proper (Qeq ==> Qeq ==> Qeq ==> Qeq ==> Qeq) Spec.combine.
Proof.
  intros p p' Hp r r' Hr s s' Hs b b' Hb. unfold Spec.combine.
  apply clamp_Proper; [| reflexivity | reflexivity]. lra.
Qed.

Section VelocityClaims.

Variable ln : Q -> Q.
Variable fromisoformat : string -> option datetime.

Lemma decay_bounds (now t : Q) : 0 <= Spec.decay now t <= 1.
Proof. unfold Spec.decay. clamp_range. lra. Qed.

(** The [max(0.0, ...)] of line 89 changes nothing under the [clamp] of line 90. *)
Lemma recency_factor_spec (now : Q) (p : option string) :
  recency_factor fromisoformat now p == Spec.recency_factor_aware fromisoformat now p.
Proof.
  unfold recency_factor, Spec.recency_factor_aware, Spec.timestamp.
  destruct p as [s |]; [| reflexivity].
  destruct (truthy s); [| reflexivity].
  destruct (fromisoformat (replace_Z s)) as [[t | t] |]; try reflexivity.
  unfold Spec.decay. div_literal. case_clamp; lra.
Qed.

Lemma recency_factor_aware_spec (now : Q) (p : option string) :
  (forall t, Spec.timestamp fromisoformat p <> Some (Naive t)) ->
  Spec.recency_factor_aware fromisoformat now p == Spec.recency_factor fromisoformat now p.
Proof.
  intros H. unfold Spec.recency_factor_aware, Spec.recency_factor.
  destruct (Spec.timestamp fromisoformat p) as [[t | t] |]; try reflexivity.
  now destruct (H t).
Qed.

Lemma social_spec (likes views : Z) :
  (0 <= likes)%Z -> (0 <= views)%Z ->
  exists s, social ln likes views = Ok s /\ s == Spec.social_factor ln likes views.
Proof.
  intros Hl Hv. rewrite social_counters by assumption.
  eexists. split; [reflexivity |].
  unfold Spec.social_factor. set (x := ln _). div_literal. case_clamp; lra.
Qed.

Lemma social_factor_bounds (likes views : Z) : 0 <= Spec.social_factor ln likes views <= 1.
Proof. unfold Spec.social_factor. clamp_range. lra. Qed.

Lemma brand_factor_bounds (b : Q) : 0 <= Spec.brand_factor b <= 1.
Proof. rewrite <- brand_spec. apply brand_bounds. Qed.

(** What [velocity_score] computes, in the terms of the specification. *)
Lemma velocity_score_guarded (now a m : Q) (p : option string) (likes views : Z) (b : Q) :
  (0 <= likes)%Z -> (0 <= views)%Z ->
  exists v,
    velocity_score ln fromisoformat now a (Some m) p likes views b = Ok v /\
    v == Spec.velocity_guarded ln fromisoformat now a m p likes views b.
Proof.
  intros Hl Hv.
  destruct (social_spec likes views Hl Hv) as (s & Hs & Es).
  unfold velocity_score. rewrite price_ratio_defined, Hs. cbn [bind].
  eexists. split; [reflexivity |].
  unfold Spec.velocity_guarded, Spec.combine, Spec.price_factor_guarded.
  apply clamp_Proper; [| reflexivity | reflexivity].
  rewrite price_factor_spec, recency_factor_spec, Es, brand_spec.
  destruct (Qltb 0 m); [lra |].
  assert (E1 : Spec.price_factor_of 1.0 == Spec.price_factor_of 1)
    by (apply price_factor_of_Proper; reflexivity).
  lra.
Qed.

Lemma decay_at_posting (t : Q) : Spec.decay t t == 1.
Proof. unfold Spec.decay. div_literal. case_clamp; lra. Qed.

Lemma decay_after_a_week (t : Q) : Spec.decay (t + 604800) t == 0.
Proof. unfold Spec.decay. div_literal. case_clamp; lra. Qed.

(** Whatever the runtime, a listing with an aware timestamp loses the whole
    recency weight, 0.3, between the instant of its posting and one week
    later. *)
Lemma velocity_score_week_gap (t a m : Q) (p : option string) (likes views : Z) (b : Q) :
  (0 <= likes)%Z -> (0 <= views)%Z ->
  Spec.timestamp fromisoformat p = Some (Aware t) ->
  exists v1 v2,
    velocity_score ln fromisoformat t a (Some m) p likes views b = Ok v1 /\
    velocity_score ln fromisoformat (t + 604800) a (Some m) p likes views b = Ok v2 /\
    v1 - v2 == 0.3.
Proof.
  intros Hl Hv Hts.
  destruct (velocity_score_guarded t a m p likes views b Hl Hv) as (v1 & H1 & E1).
  destruct (velocity_score_guarded (t + 604800) a m p likes views b Hl Hv) as (v2 & H2 & E2).
  exists v1, v2. do 2 (split; [assumption |]).
  rewrite E1, E2. unfold Spec.velocity_guarded, Spec.recency_factor_aware.
  rewrite Hts, decay_at_posting, decay_after_a_week.
  pose proof (price_factor_guarded_bounds a m) as Hp.
  pose proof (social_factor_bounds likes views) as Hs.
  pose proof (brand_factor_bounds b) as Hb.
  unfold Spec.combine. case_clamp; lra.
Qed.

Lemma social_returns (likes views : Z) (s : Q) :
  social ln likes views = Ok s -> s == Spec.social_factor ln likes views.
Proof.
  unfold social, math_log.
  destruct (Qltb 0 _); cbn [bind]; [| discriminate].
  intros [= <-]. unfold Spec.social_factor. set (x := ln _). div_literal. case_clamp; lra.
Qed.

(** Every value that [velocity_score] returns, on any counters. *)
Lemma velocity_score_returns (now a m : Q) (p : option string) (likes views : Z) (b v : Q) :
  velocity_score ln fromisoformat now a (Some m) p likes views b = Ok v ->
  v == Spec.velocity_guarded ln fromisoformat now a m p likes views b.
Proof.
  unfold velocity_score. rewrite price_ratio_defined. cbn [bind].
  destruct (social ln likes views) as [s | e] eqn:Hs; cbn [bind]; [| discriminate].
  intros [= <-]. apply social_returns in Hs.
  unfold Spec.velocity_guarded, Spec.combine, Spec.price_factor_guarded.
  apply clamp_Proper; [| reflexivity | reflexivity].
  rewrite price_factor_spec, recency_factor_spec, Hs, brand_spec.
  destruct (Qltb 0 m); [lra |].
  assert (E1 : Spec.price_factor_of 1.0 == Spec.price_factor_of 1)
    by (apply price_factor_of_Proper; reflexivity).
  lra.
Qed.

Lemma recency_factor_bounds_spec (now : Q) (p : option string) :
  0 <= Spec.recency_factor fromisoformat now p <= 1.
Proof.
  unfold Spec.recency_factor.
  destruct (Spec.timestamp fromisoformat p) as [d |]; [apply decay_bounds | lra].
Qed.

(** C7 (amended): when a market estimate [m] exists, every value that
    [velocity_score] returns for a [posted_at] that is absent, unparsable or
    carries its UTC offset is
    [clamp(0.50 price_factor + 0.30 recency_factor + 0.15 social_factor
    + 0.05 brand_factor, 0, 1)], each factor confined to [0,1], with
    price_factor = [clamp(1.5 - price_ratio, 0, 1.5) / 1.5] where price_ratio
    is [asking_price / m] when [m > 0] and 1 otherwise; recency_factor
    decaying linearly from 1 to 0 over one week since [posted_at], and 0 when
    the timestamp is absent or unparsable;
    social_factor = [clamp(ln(1 + likes + views/20) / 5, 0, 1)];
    brand_factor = [clamp(brand_popularity, 0, 1)].  With [m > 0] this is the
    formula of the specification, and [velocity_score] does return a value
    when likes and views are counters of the data model. *)
Theorem velocity_score_formula (now a m : Q) (p : option string) (likes views : Z) (b : Q) :
  (forall t, Spec.timestamp fromisoformat p <> Some (Naive t)) ->
  (forall v, velocity_score ln fromisoformat now a (Some m) p likes views b = Ok v ->
     v == Spec.combine (Spec.price_factor_guarded a m)
            (Spec.recency_factor fromisoformat now p)
            (Spec.social_factor ln likes views) (Spec.brand_factor b) /\
     (0 < m -> v == Spec.velocity ln fromisoformat now a m p likes views b)) /\
  0 <= Spec.price_factor_guarded a m <= 1 /\
  0 <= Spec.recency_factor fromisoformat now p <= 1 /\
  0 <= Spec.social_factor ln likes views <= 1 /\
  0 <= Spec.brand_factor b <= 1 /\
  (Spec.counter likes -> Spec.counter views ->
   exists v, velocity_score ln fromisoformat now a (Some m) p likes views b = Ok v).
Proof.
  intros Hnaive.
  split; [| split; [apply price_factor_guarded_bounds |
            split; [apply recency_factor_bounds_spec |
            split; [apply social_factor_bounds |
            split; [apply brand_factor_bounds |]]]]].
  - intros v Hv. apply velocity_score_returns in Hv.
    assert (E : v == Spec.combine (Spec.price_factor_guarded a m)
                       (Spec.recency_factor fromisoformat now p)
                       (Spec.social_factor ln likes views) (Spec.brand_factor b)).
    { rewrite Hv. unfold Spec.velocity_guarded.
      now rewrite (recency_factor_aware_spec now p Hnaive). }
    split; [exact E |].
    intros Hm. rewrite E. unfold Spec.velocity.
    now rewrite price_factor_guarded_positive.
  - intros [Hl _] [Hv _].
    destruct (velocity_score_guarded now a m p likes views b Hl Hv) as (v & Hv' & _).
    exists v. exact Hv'.
Qed.

(** C10: with a market estimate that is not positive [velocity_score] does
    not divide by it: the price ratio is 1.0, the price factor 1/3, and the
    velocity is a value of [0,1], not a [ZeroDivisionError]. *)
Theorem velocity_score_nonpositive_market
  (now a m : Q) (p : option string) (likes views : Z) (b : Q) :
  m <= 0 -> (0 <= likes)%Z -> (0 <= views)%Z ->
  price_ratio a m = Ok 1.0 /\
  price_factor 1.0 == 1 # 3 /\
  exists v,
    velocity_score ln fromisoformat now a (Some m) p likes views b = Ok v /\
    0 <= v <= 1 /\
    v == Spec.combine (1 # 3) (Spec.recency_factor_aware fromisoformat now p)
           (Spec.social_factor ln likes views) (Spec.brand_factor b).
Proof.
  intros Hm Hl Hv.
  split; [| split; [reflexivity |]].
  - rewrite price_ratio_defined. apply Qltb_false in Hm. now rewrite Hm.
  - destruct (velocity_score_guarded now a m p likes views b Hl Hv) as (v & Hv' & Ev).
    exists v. split; [exact Hv' |].
    split; [exact (velocity_score_bounds _ _ _ _ _ _ _ _ _ _ Hv') |].
    rewrite Ev. unfold Spec.velocity_guarded.
    now rewrite price_factor_guarded_nonpositive.
Qed.

Lemma recency_factor_without_instant (now : Q) (p : option string) :
  (forall t, Spec.timestamp fromisoformat p <> Some (Aware t)) ->
  recency_factor fromisoformat now p = 0.0.
Proof.
  unfold recency_factor, Spec.timestamp. intros H.
  destruct p as [s |]; [| reflexivity].
  destruct (truthy s); [| reflexivity].
  destruct (fromisoformat (replace_Z s)) as [[t | t] |]; try reflexivity.
  now destruct (H t).
Qed.

Lemma velocity_score_same_recency now1 now2 a m p likes views b :
  recency_factor fromisoformat now1 p = recency_factor fromisoformat now2 p ->
  velocity_score ln fromisoformat now1 a m p likes views b
  = velocity_score ln fromisoformat now2 a m p likes views b.
Proof.
  intros H. unfold velocity_score. now rewrite H.
Qed.

Lemma timestamp_Aware (p : option string) (t : Q) :
  Spec.timestamp fromisoformat p = Some (Aware t) ->
  exists s, p = Some s /\ truthy s = true /\ fromisoformat (replace_Z s) = Some (Aware t).
Proof.
  unfold Spec.timestamp. destruct p as [s |]; [| discriminate].
  destruct (truthy s) eqn:Htr; [| discriminate].
  intros H. exists s. repeat split; assumption.
Qed.

(** Up to the instant of the posting the recency is at its full value. *)
Lemma recency_factor_not_after (now t : Q) (p : option string) :
  Spec.timestamp fromisoformat p = Some (Aware t) -> now <= t ->
  recency_factor fromisoformat now p = clamp (1 - 0.0 / (24 * 7)) 0.0 1.0.
Proof.
  intros Hts Hnow. destruct (timestamp_Aware p t Hts) as (s & -> & Htr & Hp).
  unfold recency_factor. rewrite Htr, Hp.
  assert (E : Qltb 0.0 ((now - t) / 3600.0) = false)
    by (apply Qltb_false; div_literal; lra).
  unfold py_max at 1. now rewrite E.
Qed.

(** From one week after the posting on the recency is 0. *)
Lemma recency_factor_week_after (now t : Q) (p : option string) :
  Spec.timestamp fromisoformat p = Some (Aware t) -> t + 604800 <= now ->
  recency_factor fromisoformat now p = 0.0.
Proof.
  intros Hts Hnow. destruct (timestamp_Aware p t Hts) as (s & -> & Htr & Hp).
  unfold recency_factor. rewrite Htr, Hp. cbv zeta.
  assert (E : Qltb 0.0 ((now - t) / 3600.0) = true)
    by (apply Qltb_true; div_literal; lra).
  unfold py_max at 1. rewrite E.
  set (y := 1 - (now - t) / 3600.0 / (24 * 7)).
  assert (Hy : y <= 0) by (subst y; div_literal; lra).
  unfold clamp, py_min.
  assert (E1 : Qltb y 1.0 = true) by (apply Qltb_true; lra). rewrite E1.
  unfold py_max.
  assert (E2 : Qltb 0.0 y = false) by (apply Qltb_false; lra). now rewrite E2.
Qed.

(** The clock does not reach the other keys of the result, nor the
    exception that is raised. *)
Lemma score_listing_clock_free (now1 now2 : Q) (l : Listing) :
  match score_listing ln fromisoformat now1 l, score_listing ln fromisoformat now2 l with
  | Ok r1, Ok r2 =>
      result_asking_price r1 = result_asking_price r2 /\
      result_market_price_est r1 = result_market_price_est r2 /\
      net_profit r1 = net_profit r2 /\
      profit_normalized (components r1) = profit_normalized (components r2) /\
      risk (components r1) = risk (components r2) /\
      risk_raw (raw r1) = risk_raw (raw r2) /\
      net_profit_raw (raw r1) = net_profit_raw (raw r2)
  | Raise e1, Raise e2 => e1 = e2
  | _, _ => False
  end.
Proof.
  rewrite !score_listing_unfold. unfold velocity_score.
  destruct (market_est l) as [m |]; cbn [bind]; [| repeat split].
  rewrite price_ratio_defined. cbn [bind].
  destruct (social ln _ _) as [s | e]; cbn [bind]; [repeat split | reflexivity].
Qed.

(** C1 (amended): the result of [score_listing] depends on the fields of
    the listing and on the instant of the call, which [velocity_score] reads
    from the clock for the recency factor.  Two calls on identical listings,
    at any two instants, both return or both raise the same exception, and
    their results agree on asking_price, market_price_est, net_profit,
    profit_normalized and risk; the results are identical when [posted_at]
    is absent, empty or unparsable, when no market estimate is available,
    or when [posted_at] carries its UTC offset and the two calls are both
    made no later than it, or both one week or more after it. *)
Theorem score_listing_deterministic_given_clock (now1 now2 : Q) (l : Listing) :
  match score_listing ln fromisoformat now1 l, score_listing ln fromisoformat now2 l with
  | Ok r1, Ok r2 =>
      result_asking_price r1 = result_asking_price r2 /\
      result_market_price_est r1 = result_market_price_est r2 /\
      net_profit r1 = net_profit r2 /\
      profit_normalized (components r1) = profit_normalized (components r2) /\
      risk (components r1) = risk (components r2) /\
      risk_raw (raw r1) = risk_raw (raw r2) /\
      net_profit_raw (raw r1) = net_profit_raw (raw r2)
  | Raise e1, Raise e2 => e1 = e2
  | _, _ => False
  end /\
  (Spec.timestamp fromisoformat (posted_at l) = None \/
   Spec.market_unavailable l \/
   (exists t, Spec.timestamp fromisoformat (posted_at l) = Some (Aware t) /\
              ((now1 <= t /\ now2 <= t) \/
               (t + 604800 <= now1 /\ t + 604800 <= now2))) ->
   score_listing ln fromisoformat now1 l = score_listing ln fromisoformat now2 l).
Proof.
  split; [apply score_listing_clock_free |].
  intros [Hnone | [Hm | (t & Hts & [[H1 H2] | [H1 H2]])]].
  - rewrite !score_listing_unfold.
    rewrite (velocity_score_same_recency now1 now2); [reflexivity |].
    rewrite !recency_factor_without_instant; [reflexivity | |];
      intros t; rewrite Hnone; discriminate.
  - rewrite !score_listing_unfold.
    apply market_est_None_iff in Hm. rewrite Hm. reflexivity.
  - rewrite !score_listing_unfold.
    rewrite (velocity_score_same_recency now1 now2); [reflexivity |].
    now rewrite (recency_factor_not_after now1 t), (recency_factor_not_after now2 t).
  - rewrite !score_listing_unfold.
    rewrite (velocity_score_same_recency now1 now2); [reflexivity |].
    now rewrite (recency_factor_week_after now1 t), (recency_factor_week_after now2 t).
Qed.

End VelocityClaims.

(** C7, as the specification words it, fails: with the market estimate -10
    the source takes the price ratio 1.0 where the formula has 20 / -10. *)
Lemma velocity_score_departs_from_formula :
  exists v,
    velocity_score Sample.ln Sample.fromisoformat Sample.epoch_2024
      20 (Some (-10)) None 0 0 0 = Ok v /\
    v == 1 # 6 /\
    Spec.velocity Sample.ln Sample.fromisoformat Sample.epoch_2024
      20 (-10) None 0 0 0 == 1 # 2 /\
    ~ v == Spec.velocity Sample.ln Sample.fromisoformat Sample.epoch_2024
           20 (-10) None 0 0 0.
Proof.
  eexists. do 3 (split; [reflexivity |]).
  intros H. vm_compute in H. discriminate H.
Qed.

(** On a timestamp that has no UTC offset, which section 3 of the
    specification reads as UTC, [now - dt] raises [TypeError] and line 92
    sets the recency to 0: at the instant of the posting the velocity is
    1/3, where the formula has 19/30. *)
Example velocity_score_naive_timestamp :
  exists v,
    velocity_score Sample.ln Sample.fromisoformat Sample.epoch_2024
      20 (Some 40) (Some "2024-01-01T00:00:00"%string) 0 0 0 = Ok v /\
    v == 1 # 3 /\
    Spec.velocity Sample.ln Sample.fromisoformat Sample.epoch_2024
      20 40 (Some "2024-01-01T00:00:00"%string) 0 0 0 == 19 # 30.
Proof.
  eexists. do 2 (split; [reflexivity |]). reflexivity.
Qed.

Lemma velocity_score_formula_witness :
  exists v,
    velocity_score Sample.ln Sample.fromisoformat Sample.epoch_2024
      20 (Some 40) (Some "2024-01-01T00:00:00Z"%string) 10 100 0.8 = Ok v /\
    v == Spec.velocity Sample.ln Sample.fromisoformat Sample.epoch_2024
           20 40 (Some "2024-01-01T00:00:00Z"%string) 10 100 0.8.
Proof.
  assert (Hnaive : forall t,
             Spec.timestamp Sample.fromisoformat (Some "2024-01-01T00:00:00Z"%string)
             <> Some (Naive t)) by (intros t; discriminate).
  assert (Hl : Spec.counter 10) by (split; [discriminate | reflexivity]).
  assert (Hv : Spec.counter 100) by (split; [discriminate | reflexivity]).
  destruct (velocity_score_formula Sample.ln Sample.fromisoformat Sample.epoch_2024
              20 40 (Some "2024-01-01T00:00:00Z"%string) 10 100 0.8 Hnaive)
    as (Hformula & _ & _ & _ & _ & Hreturns).
  destruct (Hreturns Hl Hv) as [v Hv'].
  exists v. split; [exact Hv' |].
  apply (Hformula v Hv'). reflexivity.
Defined.

Lemma velocity_score_nonpositive_market_witness :
  exists v,
    velocity_score Sample.ln Sample.fromisoformat Sample.epoch_2024
      20 (Some 0) None 0 0 0.5 = Ok v /\ 0 <= v <= 1.
Proof.
  assert (Hm : 0 <= 0) by discriminate.
  assert (Hz : (0 <= 0)%Z) by discriminate.
  destruct (velocity_score_nonpositive_market Sample.ln Sample.fromisoformat
              Sample.epoch_2024 20 0 None 0 0 0.5 Hm Hz Hz)
    as (_ & _ & v & Hv & Hb & _).
  exists v. split; [exact Hv | exact Hb].
Defined.

(** C1, as the specification words it, fails: the same listing scored at
    the instant of its posting and one week later gets 42.22, then 25.72. *)
Lemma score_listing_depends_on_clock :
  exists r1 r2,
    score_listing Sample.ln Sample.fromisoformat Sample.epoch_2024 Sample.scenario = Ok r1 /\
    score_listing Sample.ln Sample.fromisoformat (Sample.epoch_2024 + Sample.one_week)
      Sample.scenario = Ok r2 /\
    score r1 == 42.22 /\ score r2 == 25.72 /\
    r1 <> r2.
Proof.
  do 2 eexists. do 2 (split; [reflexivity |]).
  do 2 (split; [reflexivity |]).
  intros H. apply (f_equal score) in H. vm_compute in H. discriminate H.
Qed.

Lemma score_listing_deterministic_given_clock_witness :
  score_listing Sample.ln Sample.fromisoformat (Sample.epoch_2024 + Sample.one_week)
    Sample.scenario
  = score_listing Sample.ln Sample.fromisoformat (Sample.epoch_2024 + 2 * Sample.one_week)
      Sample.scenario.
Proof.
  apply score_listing_deterministic_given_clock.
  right. right. exists Sample.epoch_2024.
  split; [reflexivity |]. right. split; discriminate.
Defined.

(** *** The scenarios of section 8 *)

Example median_examples :
  median [] = None /\
  (exists m, median [1; 3] = Some m /\ m == 2) /\
  (exists m, median [1; 2; 3] = Some m /\ m == 2).
Proof.
  split; [reflexivity |]. split; eexists; split; reflexivity.
Qed.

(** "expected net_profit = 8.00, velocity ~ 0.756, risk = 0.0,
    profit_normalized ~ 0.0154, score ~ 42.2". *)
Example scenario_scores :
  exists r,
    score_listing Sample.ln Sample.fromisoformat Sample.epoch_2024 Sample.scenario = Ok r /\
    (exists np, net_profit r = Some np /\ np == 8.00) /\
    velocity (components r) == 0.7565 /\
    risk (components r) == 0 /\
    profit_normalized (components r) == 0.0154 /\
    score r == 42.22.
Proof.
  eexists. split; [reflexivity |].
  split; [eexists; split; reflexivity |].
  repeat split.
Qed.

(** "same Listing but ambiguous_brand=True and photo_quality=0.2: risk =
    0.60, score strictly lower". *)
Example scenario_with_risk_scores :
  let risky :=
    {| asking_price := asking_price Sample.scenario;
       market_price_est := market_price_est Sample.scenario;
       historical_prices := historical_prices Sample.scenario;
       posted_at := posted_at Sample.scenario;
       likes := likes Sample.scenario;
       views := views Sample.scenario;
       brand_popularity := brand_popularity Sample.scenario;
       photo_quality := Some 0.2;
       ambiguous_brand := Some true;
       suspect_low_price := suspect_low_price Sample.scenario |} in
  exists r,
    score_listing Sample.ln Sample.fromisoformat Sample.epoch_2024 risky = Ok r /\
    risk (components r) == 0.60 /\
    score r == 33.22 /\ score r < 42.22.
Proof.
  eexists. split; [reflexivity |]. repeat split.
Qed.

(** Outside the data model: a negative counter takes [math.log] out of its
    domain and [score_listing] raises. *)
Example negative_likes_raise :
  score_listing Sample.ln Sample.fromisoformat Sample.epoch_2024
    {| asking_price := Some 20;
       market_price_est := Some 40;
       historical_prices := None;
       posted_at := None;
       likes := Some (-1)%Z;
       views := None;
       brand_popularity := None;
       photo_quality := None;
       ambiguous_brand := None;
       suspect_low_price := None |}
  = Raise ValueError.
Proof. reflexivity. Qed.

End ScoringFacts.

(** ** Facts on the collector *)

Module CollectorFacts.

Import Collector.

Lemma Semaphore_Ok (value v : Z) : Semaphore value = Ok v -> v = value /\ (0 <= value)%Z.
Proof.
  unfold Semaphore. destruct (value <? 0)%Z eqn:E; [discriminate |].
  intros [= <-]. apply Z.ltb_ge in E. auto.
Qed.

Lemma init_invariant (capacity : Z) (urls : list string) (c : CollectorAsync) :
  init capacity urls = Py.Ok c ->
  Spec.gate_invariant capacity c /\ queued c = urls /\ in_flight c = [] /\ finished c = [].
Proof.
  unfold init. destruct (Semaphore capacity) as [v | e] eqn:E; [| discriminate].
  cbn [Py.bind]. intros [= <-]. apply Semaphore_Ok in E as [-> Hpos].
  unfold Spec.gate_invariant. cbn. repeat split; auto. lia.
Qed.

Lemma step_invariant (capacity : Z) (c c' : CollectorAsync) :
  step c c' -> Spec.gate_invariant capacity c -> Spec.gate_invariant capacity c'.
Proof.
  intros Hstep (Hcap & Hpos & Hsum).
  destruct Hstep as [c before url after Hq Hfree | c before url after client_get Hf];
    unfold Spec.gate_invariant; cbn [concurrency sema in_flight].
  - cbn [List.length]. repeat split; lia.
  - rewrite Hf in Hsum. rewrite length_app in *. cbn [List.length] in Hsum.
    repeat split; lia.
Qed.

Lemma steps_invariant (capacity : Z) (c c' : CollectorAsync) :
  steps c c' -> Spec.gate_invariant capacity c -> Spec.gate_invariant capacity c'.
Proof.
  induction 1 as [c | c1 c2 c3 H12 IH H23]; intros Hinv.
  - exact Hinv.
  - eapply step_invariant; [exact H23 |]. now apply IH.
Qed.

Lemma step_calls (c c' : CollectorAsync) : step c c' -> Spec.calls c' = Spec.calls c.
Proof.
  intros [c0 before url after Hq Hfree | c0 before url after client_get Hf];
    unfold Spec.calls; cbn [queued in_flight finished List.length].
  - rewrite Hq, !length_app. cbn [List.length]. lia.
  - rewrite Hf, !length_app. cbn [List.length]. lia.
Qed.

Lemma steps_calls (c c' : CollectorAsync) : steps c c' -> Spec.calls c' = Spec.calls c.
Proof.
  induction 1 as [c | c1 c2 c3 H12 IH H23]; [reflexivity |].
  rewrite (step_calls _ _ H23). exact IH.
Qed.

(** With every permit taken no queued call can enter. *)
Lemma gate_closed (capacity : Z) (c c' : CollectorAsync) :
  Spec.gate_invariant capacity c ->
  Z.of_nat (List.length (in_flight c)) = capacity ->
  step c c' ->
  (List.length (in_flight c') < List.length (in_flight c))%nat.
Proof.
  intros (Hcap & Hpos & Hsum) Hfull Hstep.
  destruct Hstep as [c before url after Hq Hfree | c before url after client_get Hf];
    cbn [in_flight].
  - lia.
  - rewrite Hf, !length_app. cbn [List.length]. lia.
Qed.

(** While a call is queued and the capacity is positive the event loop can
    take a step. *)
Lemma progress (capacity : Z) (c : CollectorAsync) :
  (0 < capacity)%Z -> Spec.gate_invariant capacity c -> queued c <> [] ->
  exists c', step c c'.
Proof.
  intros Hcap (Hc & Hpos & Hsum) Hq.
  destruct (Z.eq_dec (sema c) 0) as [Hzero | Hfree].
  - destruct (in_flight c) as [| url after] eqn:Hf.
    + cbn [List.length] in Hsum. lia.
    + eexists. eapply (step_release c [] url after Sample.not_found). exact Hf.
  - destruct (queued c) as [| url after] eqn:Hqueue; [congruence |].
    eexists. eapply (step_acquire c [] url after); [exact Hqueue | lia].
Qed.

Lemma fetch_returns (client_get : string -> http_outcome) (url : string) :
  exists body, _fetch client_get url = Return body.
Proof.
  unfold _fetch, on_outcome.
  destruct (client_get url) as [status_code text | message].
  - destruct (status_code =? 200)%Z; eauto.
  - eauto.
Qed.

(** C8: whatever the server or the network answers to the request for a
    URL, [_fetch] returns: the body text when the status is 200, [None] on
    every other status and on every transport error; it never lets an
    exception through. *)
Theorem fetch_returns_body_or_none (client_get : string -> http_outcome) (url : string) :
  (forall text, client_get url = Response 200 text ->
     _fetch client_get url = Return (Some text)) /\
  (forall status_code text, client_get url = Response status_code text ->
     status_code <> 200%Z -> _fetch client_get url = Return None) /\
  (forall message, client_get url = TransportError message ->
     _fetch client_get url = Return None) /\
  (exists body, _fetch client_get url = Return body).
Proof.
  unfold _fetch, on_outcome. repeat split.
  - intros text ->. reflexivity.
  - intros status_code text -> Hne.
    apply Z.eqb_neq in Hne. now rewrite Hne.
  - intros message ->. reflexivity.
  - apply fetch_returns.
Qed.

Example fetch_404 : _fetch Sample.not_found Sample.sample_url = Return None.
Proof. reflexivity. Qed.

(** Every finished call of a run has returned. *)
Lemma finished_returned (c c' : CollectorAsync) :
  steps c c' ->
  Forall (fun entry => exists body, snd entry = Return body) (finished c) ->
  Forall (fun entry => exists body, snd entry = Return body) (finished c').
Proof.
  induction 1 as [c | c1 c2 c3 H12 IH H23]; intros Hc; [exact Hc |].
  specialize (IH Hc).
  destruct H23 as [c2 before url after Hq Hfree | c2 before url after client_get Hf];
    cbn [finished]; [exact IH |].
  constructor; [| exact IH]. cbn [snd].
  apply fetch_returns.
Qed.

(** C9: for every list of submitted URLs and every run of the event loop,
    the calls of [_fetch] in flight never outnumber the capacity of the
    gate. *)
Theorem in_flight_bounded_by_concurrency
  (capacity : Z) (urls : list string) (c0 c : CollectorAsync) :
  init capacity urls = Py.Ok c0 ->
  steps c0 c ->
  (Z.of_nat (List.length (in_flight c)) <= capacity)%Z /\
  (sema c + Z.of_nat (List.length (in_flight c)) = capacity)%Z /\
  Spec.calls c = List.length urls.
Proof.
  intros Hinit Hsteps.
  destruct (init_invariant _ _ _ Hinit) as (Hinv & Hq & Hf & Hd).
  destruct (steps_invariant capacity _ _ Hsteps Hinv) as (_ & Hpos & Hsum).
  split; [lia |]. split; [exact Hsum |].
  rewrite (steps_calls _ _ Hsteps). unfold Spec.calls. rewrite Hq, Hf, Hd.
  cbn [List.length]. lia.
Qed.

(** The scenario of section 8: 20 URLs on a collector of capacity 6. *)
Lemma after_acquires_0 : init 6 Sample.sample_urls = Py.Ok (Sample.after_acquires 0).
Proof. reflexivity. Qed.

Lemma after_acquires_step (k : nat) :
  (k < 6)%nat -> step (Sample.after_acquires k) (Sample.after_acquires (S k)).
Proof.
  intros Hk.
  set (u := Sample.sample_url). set (urls := Sample.sample_urls).
  assert (Hq : queued (Sample.after_acquires k) = [] ++ u :: skipn (S k) urls)
    by (do 6 (destruct k as [| k]; [reflexivity |]); lia).
  assert (Hf : u :: firstn k urls = firstn (S k) urls)
    by (do 6 (destruct k as [| k]; [reflexivity |]); lia).
  assert (Hs : (0 < sema (Sample.after_acquires k))%Z)
    by (cbn [Sample.after_acquires sema]; lia).
  pose proof (step_acquire (Sample.after_acquires k) [] u (skipn (S k) urls) Hq Hs)
    as Hstep.
  cbn [Sample.after_acquires concurrency sema in_flight finished app] in Hstep.
  fold urls in Hstep. rewrite Hf in Hstep.
  replace (6 - Z.of_nat k - 1)%Z with (6 - Z.of_nat (S k))%Z in Hstep by lia.
  exact Hstep.
Qed.

Lemma after_acquires_run (k : nat) :
  (k <= 6)%nat -> steps (Sample.after_acquires 0) (Sample.after_acquires k).
Proof.
  induction k as [| k IH]; intros Hk.
  - apply steps_refl.
  - eapply steps_next; [apply IH; lia | apply after_acquires_step; lia].
Qed.

(** With six calls in flight the seventh waits. *)
Lemma after_acquires_6_full (c : CollectorAsync) :
  step (Sample.after_acquires 6) c -> (List.length (in_flight c) < 6)%nat.
Proof.
  intros Hstep.
  apply (gate_closed 6 (Sample.after_acquires 6) c); [| reflexivity | exact Hstep].
  apply (steps_invariant 6 (Sample.after_acquires 0)); [apply after_acquires_run; lia |].
  apply (init_invariant 6 Sample.sample_urls), after_acquires_0.
Qed.

(** "submitting 20 URLs to a PageFetcher configured with concurrency=6
    results in never more than 6 concurrently outstanding requests". *)
Lemma scenario_never_more_than_6 (c : CollectorAsync) :
  steps (Sample.after_acquires 0) c ->
  (List.length (in_flight c) <= 6)%nat /\ Spec.calls c = 20%nat.
Proof.
  intros Hsteps.
  destruct (init_invariant 6 Sample.sample_urls _ after_acquires_0) as (Hinv & _).
  destruct (steps_invariant 6 _ _ Hsteps Hinv) as (_ & Hpos & Hsum).
  split; [lia |]. now rewrite (steps_calls _ _ Hsteps).
Qed.

(** The default capacity is 6. *)
Lemma default_gate (urls : list string) :
  exists c0, init DEFAULT_CONCURRENCY urls = Py.Ok c0 /\ sema c0 = 6%Z.
Proof. eexists. split; reflexivity. Qed.

Lemma in_flight_bounded_by_concurrency_witness :
  let c := Sample.after_acquires 6 in
  (Z.of_nat (List.length (in_flight c)) <= 6)%Z /\
  (sema c + Z.of_nat (List.length (in_flight c)) = 6)%Z /\
  Spec.calls c = 20%nat.
Proof.
  exact (in_flight_bounded_by_concurrency 6 Sample.sample_urls
           (Sample.after_acquires 0) (Sample.after_acquires 6)
           after_acquires_0 (after_acquires_run 6 (le_n 6))).
Defined.

End CollectorFacts.

(** ** Properties beyond the claims *)

Module CoverageFacts.

Import Scoring PyFacts ScoringFacts Coverage.

(** *** [clamp], lines 46-47 *)

(** X1: [clamp] is idempotent and never returns less than [lo], whatever the
    bounds. *)
Theorem clamp_idempotent_above_lo (x lo hi : Q) :
  clamp (clamp x lo hi) lo hi == clamp x lo hi /\ lo <= clamp x lo hi.
Proof.
  split.
  - unfold clamp, py_max, py_min.
    destruct (Qltb x hi) eqn:E1; destruct (Qltb lo (if Qltb x hi then x else hi)) eqn:E2;
      rewrite ?E1 in *; case_Qltb; lra.
  - case_clamp; lra.
Qed.

(** X2: with the bounds the wrong way round ([hi < lo]) [clamp] returns [lo]
    for every [x]. *)
Theorem clamp_inverted_bounds (x lo hi : Q) : hi < lo -> clamp x lo hi = lo.
Proof.
  intros H. unfold clamp, py_max, py_min. case_Qltb; try reflexivity; lra.
Qed.

Lemma clamp_inverted_bounds_witness : clamp 0.3 1 0 = 1.
Proof. apply clamp_inverted_bounds. reflexivity. Defined.

(** *** [median] and [estimate_market_price], lines 49-59 *)

Lemma count_le_none (m : Q) (l : list Q) :
  Forall (fun y => m < y) l -> Spec.count_le m l = 0%nat.
Proof.
  induction 1 as [| y t Hy Ht IH]; [reflexivity |].
  rewrite count_le_cons, IH.
  destruct (Qle_bool y m) eqn:E; [| reflexivity].
  apply Qle_bool_iff in E. lra.
Qed.

Lemma count_le_below (s : list Q) :
  StronglySorted Qle s ->
  forall k m, (k < List.length s)%nat -> m < nth k s 0 -> (Spec.count_le m s <= k)%nat.
Proof.
  induction 1 as [| x t Ht IH Hx]; intros k m Hk Hm; cbn [List.length] in Hk; [lia |].
  destruct k as [| k]; cbn [nth] in Hm.
  - rewrite count_le_none; [lia |].
    constructor; [exact Hm |].
    eapply Forall_impl; [| exact Hx]. intros z Hz. cbv beta in Hz. lra.
  - rewrite count_le_cons.
    assert (Hk' : (k < List.length t)%nat) by lia.
    specialize (IH k m Hk' Hm).
    destruct (Qle_bool x m); lia.
Qed.

(** Two sorted arrangements of the same amounts agree place by place. *)
Lemma sorted_nth_unique (s s' : list Q) (k : nat) :
  StronglySorted Qle s -> StronglySorted Qle s' -> Permutation s s' ->
  (k < List.length s)%nat -> nth k s 0 == nth k s' 0.
Proof.
  intros Hs Hs' Hp Hk.
  assert (Hk' : (k < List.length s')%nat) by (rewrite <- (Permutation_length Hp); exact Hk).
  destruct (Q_dec (nth k s 0) (nth k s' 0)) as [[Hlt | Hgt] | Heq]; [| | exact Heq].
  - pose proof (count_le_nth s Hs k (nth k s 0) Hk (Qle_refl _)) as H1.
    pose proof (count_le_below s' Hs' k (nth k s 0) Hk' Hlt) as H2.
    rewrite (count_le_Permutation _ _ _ Hp) in H1. lia.
  - pose proof (count_le_nth s' Hs' k (nth k s' 0) Hk' (Qle_refl _)) as H1.
    pose proof (count_le_below s Hs k (nth k s' 0) Hk Hgt) as H2.
    rewrite (count_le_Permutation _ _ _ Hp) in H2. lia.
Qed.

(** X3: the median does not depend on the order of the prices: two lists
    with the same amounts in another order have the same median, or none. *)
Theorem median_order_independent (nums nums' : list Q) :
  Permutation nums nums' ->
  (median nums = None /\ median nums' = None) \/
  (exists m m', median nums = Some m /\ median nums' = Some m' /\ m == m').
Proof.
  intros Hp.
  destruct nums as [| x t].
  - apply Permutation_nil in Hp. subst nums'. left. split; reflexivity.
  - assert (Hne : x :: t <> []) by discriminate.
    assert (Hne' : nums' <> []).
    { intros ->. apply Permutation_sym, Permutation_nil in Hp. discriminate Hp. }
    right.
    rewrite (median_sorted _ Hne), (median_sorted _ Hne'). cbv zeta.
    rewrite <- (Permutation_length Hp).
    set (n := List.length (x :: t)).
    assert (Hn : (0 < n)%nat) by (subst n; cbn; lia).
    assert (Hps : Permutation (sorted (x :: t)) (sorted nums')).
    { eapply perm_trans; [apply Permutation_sym, sorted_Permutation |].
      eapply perm_trans; [exact Hp | apply sorted_Permutation]. }
    pose proof (sorted_StronglySorted (x :: t)) as Hs.
    pose proof (sorted_StronglySorted nums') as Hs'.
    assert (Hlen : List.length (sorted (x :: t)) = n) by apply sorted_length.
    pose proof (Nat.div_mod_eq n 2) as Hdiv.
    pose proof (Nat.mod_upper_bound n 2) as Hmod.
    destruct (Nat.eqb (n mod 2) 1) eqn:Hodd; do 2 eexists; (split; [reflexivity |]);
      (split; [reflexivity |]).
    + apply sorted_nth_unique; try assumption. lia.
    + apply Nat.eqb_neq in Hodd.
      rewrite (sorted_nth_unique _ _ (n / 2 - 1) Hs Hs' Hps) by lia.
      rewrite (sorted_nth_unique _ _ (n / 2) Hs Hs' Hps) by lia.
      reflexivity.
Qed.

Lemma median_order_independent_witness :
  exists m m', median [3; 1; 2] = Some m /\ median [2; 3; 1] = Some m' /\ m == m'.
Proof.
  assert (Hp : Permutation [3; 1; 2] [2; 3; 1]).
  { apply perm_trans with [3; 2; 1]; [apply perm_skip, perm_swap |].
    apply perm_trans with [2; 3; 1]; [apply perm_swap | apply Permutation_refl]. }
  destruct (median_order_independent [3; 1; 2] [2; 3; 1] Hp) as [[H _] | H].
  - discriminate H.
  - exact H.
Defined.

Lemma count_float_le_cons (m x : float) (l : list float) :
  Spec.count_float_le m (x :: l)
  = ((if (x <=? m)%float then 1 else 0) + Spec.count_float_le m l)%nat.
Proof. unfold Spec.count_float_le. cbn [filter]. now destruct (x <=? m)%float. Qed.

Lemma count_float_ge_cons (m x : float) (l : list float) :
  Spec.count_float_ge m (x :: l)
  = ((if (m <=? x)%float then 1 else 0) + Spec.count_float_ge m l)%nat.
Proof. unfold Spec.count_float_ge. cbn [filter]. now destruct (m <=? x)%float. Qed.

Lemma count_float_le_Permutation (m : float) (l l' : list float) :
  Permutation l l' -> Spec.count_float_le m l = Spec.count_float_le m l'.
Proof. induction 1; rewrite ?count_float_le_cons; lia. Qed.

Lemma count_float_ge_Permutation (m : float) (l l' : list float) :
  Permutation l l' -> Spec.count_float_ge m l = Spec.count_float_ge m l'.
Proof. induction 1; rewrite ?count_float_ge_cons; lia. Qed.

Lemma count_float_ge_all (m : float) (l : list float) :
  Forall (Spec.float_le m) l -> Spec.count_float_ge m l = List.length l.
Proof.
  induction 1 as [| x t Hx Ht IH]; [reflexivity |].
  rewrite count_float_ge_cons, IH. unfold Spec.float_le in Hx. now rewrite Hx.
Qed.

Lemma count_float_le_nth (s : list float) :
  StronglySorted Spec.float_le s ->
  forall k m, (k < List.length s)%nat -> Spec.float_le (nth k s 0%float) m ->
  (k + 1 <= Spec.count_float_le m s)%nat.
Proof.
  induction 1 as [| x t Ht IH Hx]; intros k m Hk Hm; cbn [List.length] in Hk; [lia |].
  rewrite count_float_le_cons.
  assert (Hxm : Spec.float_le x m).
  { destruct k as [| k]; [exact Hm |]. cbn [nth] in Hm.
    rewrite Forall_forall in Hx. specialize (Hx (nth k t 0%float)).
    apply Binary64Facts.float_le_trans with (nth k t 0%float); [| exact Hm].
    apply Hx, nth_In. lia. }
  unfold Spec.float_le in Hxm. rewrite Hxm.
  destruct k as [| k]; [lia |].
  cbn [nth] in Hm.
  assert (Hk' : (k < List.length t)%nat) by lia.
  specialize (IH k m Hk' Hm). lia.
Qed.

Lemma count_float_ge_nth (s : list float) :
  StronglySorted Spec.float_le s ->
  forall k m, (k < List.length s)%nat -> Spec.float_le m (nth k s 0%float) ->
  (List.length s - k <= Spec.count_float_ge m s)%nat.
Proof.
  induction 1 as [| x t Ht IH Hx]; intros k m Hk Hm; cbn [List.length] in *; [lia |].
  destruct k as [| k]; cbn [nth] in Hm.
  - rewrite count_float_ge_all; [cbn [List.length]; lia |].
    constructor; [exact Hm |].
    eapply Forall_impl; [| exact Hx].
    intros z Hz. exact (Binary64Facts.float_le_trans _ _ _ Hm Hz).
  - rewrite count_float_ge_cons.
    assert (Hk' : (k < List.length t)%nat) by lia.
    specialize (IH k m Hk' Hm). lia.
Qed.

(** X4: in double precision the median of an odd number of prices, none a
    NaN, is one of the prices, and at least half of the prices are at most
    it and at least half are at least it. *)
Theorem median_of_odd_length_is_a_middle_price (nums : list float) :
  Forall (fun x => is_nan x = false) nums ->
  (List.length nums mod 2 = 1)%nat ->
  exists m, Binary64.median nums = Some m /\ In m nums /\ Spec.is_median m nums.
Proof.
  intros Hnan Hodd.
  assert (Hne : nums <> []) by (intros ->; discriminate Hodd).
  rewrite (Binary64Facts.binary64_median_sorted nums Hne). cbv zeta.
  pose proof (Binary64Facts.binary64_sorted_StronglySorted nums Hnan) as Hs.
  pose proof (Binary64Facts.binary64_sorted_length nums) as Hlen.
  pose proof (Binary64Facts.binary64_sorted_Permutation nums) as Hp.
  pose proof (Binary64Facts.binary64_sorted_not_nan nums Hnan) as Hnan'.
  set (s := Binary64.sorted nums) in *. set (n := List.length nums) in *.
  pose proof (Nat.div_mod_eq n 2) as Hdiv.
  assert (E : Nat.eqb (n mod 2) 1 = true) by (apply Nat.eqb_eq; exact Hodd).
  rewrite E. exists (nth (n / 2) s 0%float).
  assert (Hk : (n / 2 < List.length s)%nat) by lia.
  assert (Hin : In (nth (n / 2) s 0%float) s) by (apply nth_In; exact Hk).
  split; [reflexivity |].
  split; [exact (Permutation_in _ (Permutation_sym Hp) Hin) |].
  assert (Hrefl : Spec.float_le (nth (n / 2) s 0%float) (nth (n / 2) s 0%float)).
  { rewrite Forall_forall in Hnan'. apply Binary64Facts.float_le_refl, Hnan', Hin. }
  unfold Spec.is_median.
  rewrite (count_float_le_Permutation _ _ _ Hp), (count_float_ge_Permutation _ _ _ Hp).
  pose proof (count_float_le_nth s Hs (n / 2) _ Hk Hrefl) as H1.
  pose proof (count_float_ge_nth s Hs (n / 2) _ Hk Hrefl) as H2.
  lia.
Qed.

Lemma median_of_odd_length_is_a_middle_price_witness :
  exists m, Binary64.median [50; 30; 40]%float = Some m /\
            In m [50; 30; 40]%float /\ Spec.is_median m [50; 30; 40]%float.
Proof.
  apply median_of_odd_length_is_a_middle_price; [| reflexivity].
  repeat constructor.
Defined.

Lemma round_error (x : Q) (n : nat) : Qabs (round x n - x) <= (1 # 2) / pow10 n.
Proof.
  unfold round. pose proof (pow10_pos n) as Hp.
  pose proof (round_half_even_error (x * pow10 n)) as He.
  set (k := inject_Z (round_half_even (x * pow10 n))) in *.
  apply Qabs_Qle_condition in He. destruct He as [He1 He2].
  assert (Hinv : 0 < / pow10 n) by (apply Qinv_lt_0_compat, Hp).
  assert (E : k / pow10 n - x == (k - x * pow10 n) * / pow10 n) by (field; lra).
  rewrite E. apply Qabs_Qle_condition. unfold Qdiv. split.
  - setoid_replace (- ((1 # 2) * / pow10 n)) with ((- (1 # 2)) * / pow10 n) by ring.
    apply Qmult_le_compat_r; lra.
  - apply Qmult_le_compat_r; lra.
Qed.

(** *** [velocity_score], lines 81-82: the price factor *)

(** X7: with a positive market estimate the price factor is 1 for an asking
    price of 0 or less, falls linearly to 0 at one and a half times the
    estimate, and stays 0 above. *)
Theorem price_factor_profile (a m : Q) :
  0 < m ->
  exists r, price_ratio a m = Ok r /\
    (a <= 0 -> price_factor r == 1) /\
    (0 <= a <= 1.5 * m -> price_factor r == 1 - a / (1.5 * m)) /\
    (1.5 * m <= a -> price_factor r == 0).
Proof.
  intros Hm. rewrite price_ratio_defined.
  assert (E : Qltb 0 m = true) by (apply Qltb_true; exact Hm). rewrite E.
  eexists. split; [reflexivity |].
  assert (Hr : a / m * m == a) by (field; lra).
  assert (Hd : a / (1.5 * m) == (a / m) * (2 # 3)) by (field; lra).
  rewrite Hd. set (r := a / m) in *. unfold price_factor. div_literal.
  repeat split; intros H; case_clamp; nra.
Qed.

Lemma price_factor_profile_witness :
  exists r, price_ratio 20 40 = Ok r /\ price_factor r == 1 - 20 / (1.5 * 40).
Proof.
  assert (Hm : 0 < 40) by reflexivity.
  destruct (price_factor_profile 20 40 Hm) as (r & Hr & _ & Hmid & _).
  exists r. split; [exact Hr |]. apply Hmid. split; discriminate.
Defined.

(** *** [final_score], lines 113-134 *)

(** X8: [final_score] raises exactly when a net profit is given and the two
    profit bounds are equal, and then it is a [ZeroDivisionError]. *)
Theorem final_score_raises_iff (np : option Q) (v rk lo hi : Q) (e : exn) :
  final_score np v rk lo hi = Raise e <->
  e = ZeroDivisionError /\ np <> None /\ hi == lo.
Proof.
  unfold final_score, truediv. destruct np as [x |]; cbn [bind].
  - destruct (Qeq_bool (hi - lo) 0) eqn:E; cbn [bind].
    + apply Qeq_bool_eq in E. split.
      * intros [= <-]. repeat split; [discriminate | lra].
      * intros (-> & _ & _). reflexivity.
    + apply Qeq_bool_neq in E. split; [discriminate |].
      intros (_ & _ & H). exfalso. apply E. lra.
  - split; [discriminate |]. intros (_ & H & _). now destruct H.
Qed.

Lemma final_score_returns (np : option Q) (v rk lo hi : Q) :
  ~ hi == lo ->
  final_score np v rk lo hi
  = Ok {| final_score_pct :=
            round (clamp (WEIGHT_PROFIT
                          * match np with
                            | None => 0.0
                            | Some x => clamp ((x - lo) / (hi - lo)) 0.0 1.0
                            end
                          + WEIGHT_VELOCITY * v - WEIGHT_RISK * rk) 0.0 1.0 * 100) 2;
          final_profit_normalized :=
            round match np with
                  | None => 0.0
                  | Some x => clamp ((x - lo) / (hi - lo)) 0.0 1.0
                  end 4;
          final_velocity := round v 4;
          final_risk := round rk 4;
          final_net_profit := option_map (fun x => round x 2) np |}.
Proof.
  intros Hne. unfold final_score, truediv. destruct np as [x |]; [| reflexivity].
  destruct (Qeq_bool (hi - lo) 0) eqn:E; [| reflexivity].
  apply Qeq_bool_eq in E. exfalso. apply Hne. lra.
Qed.

(** X9: with [min_profit < max_profit] the score of [final_score] does not
    fall when the net profit or the velocity rises or the risk falls. *)
Theorem final_score_monotone (np1 np2 : option Q) (v1 v2 rk1 rk2 lo hi : Q) :
  lo < hi -> Spec.option_le np1 np2 -> v1 <= v2 -> rk2 <= rk1 ->
  exists f1 f2,
    final_score np1 v1 rk1 lo hi = Ok f1 /\
    final_score np2 v2 rk2 lo hi = Ok f2 /\
    final_score_pct f1 <= final_score_pct f2 /\
    final_profit_normalized f1 <= final_profit_normalized f2.
Proof.
  intros Hb Hnp Hv Hrk.
  assert (Hne : ~ hi == lo) by lra.
  rewrite !(final_score_returns _ _ _ _ _ Hne).
  do 2 eexists. do 2 (split; [reflexivity |]).
  cbn [final_score_pct final_profit_normalized].
  assert (Hpn : match np1 with
                | None => 0.0
                | Some x => clamp ((x - lo) / (hi - lo)) 0.0 1.0
                end
                <= match np2 with
                   | None => 0.0
                   | Some x => clamp ((x - lo) / (hi - lo)) 0.0 1.0
                   end).
  { destruct np1 as [x1 |], np2 as [x2 |]; cbn [Spec.option_le] in Hnp; try tauto; [| lra].
    apply clamp_mono. apply Qmult_le_compat_r; [lra |].
    apply Qlt_le_weak, Qinv_lt_0_compat. lra. }
  split; [| apply round_mono, Hpn].
  apply round_mono. apply Qmult_le_compat_r; [| lra].
  apply clamp_mono. unfold WEIGHT_PROFIT, WEIGHT_VELOCITY, WEIGHT_RISK. lra.
Qed.

Lemma final_score_monotone_witness :
  exists f1 f2,
    final_score (Some 8) 0.5 0.6 5 200 = Ok f1 /\
    final_score (Some 50) 0.7 0.25 5 200 = Ok f2 /\
    final_score_pct f1 <= final_score_pct f2 /\
    final_profit_normalized f1 <= final_profit_normalized f2.
Proof.
  apply final_score_monotone; first [reflexivity | cbn; discriminate].
Defined.

(** X10: with distinct profit bounds [final_score] returns a score in
    [0,100] and a normalized profit in [0,1] on every input, also on a
    velocity or a risk outside [0,1] and on bounds the wrong way round. *)
Theorem final_score_bounded_on_any_input (np : option Q) (v rk lo hi : Q) :
  ~ hi == lo ->
  exists f, final_score np v rk lo hi = Ok f /\
    0 <= final_score_pct f <= 100 /\
    0 <= final_profit_normalized f <= 1.
Proof.
  intros Hne. rewrite (final_score_returns _ _ _ _ _ Hne).
  eexists. split; [reflexivity |]. cbn [final_score_pct final_profit_normalized].
  set (pn := match np with None => 0.0 | Some x => _ end).
  assert (Hpn : 0 <= pn <= 1).
  { subst pn. destruct np as [x |]; [clamp_range |]; lra. }
  split; [| apply (round_between _ _ 0 1), Hpn].
  apply (round_between _ _ 0 100).
  change (inject_Z 0) with 0. change (inject_Z 100) with 100.
  clamp_range. lra.
Qed.

Lemma final_score_bounded_on_any_input_witness :
  exists f, final_score (Some 1000) 7 (-3) 200 5 = Ok f /\
    0 <= final_score_pct f <= 100 /\
    0 <= final_profit_normalized f <= 1.
Proof.
  apply final_score_bounded_on_any_input. discriminate.
Defined.

(** X11: at the default bounds the normalized profit is 0 up to a net profit
    of 5, 1 from 200 on, and in between within 0.0001 of the share
    [(net_profit - 5) / 195] of the way. *)
Theorem profit_normalization_saturates (np v rk : Q) :
  exists f,
    final_score (Some np) v rk MIN_PROFIT_DESIRABLE MAX_PROFIT_CONSIDERED = Ok f /\
    (np <= 5 -> final_profit_normalized f == 0) /\
    (5 <= np <= 200 ->
       Qabs (final_profit_normalized f - (np - 5) / 195) <= 1 # 10000) /\
    (200 <= np -> final_profit_normalized f == 1).
Proof.
  rewrite final_score_defaults. eexists. split; [reflexivity |].
  cbn [final_profit_normalized profit_norm].
  unfold MIN_PROFIT_DESIRABLE, MAX_PROFIT_CONSIDERED.
  assert (Hd : (np - 5.0) / (200.0 - 5.0) == (np - 5) / 195) by (field; discriminate).
  split; [| split]; intros H.
  - rewrite clamp_below; [reflexivity | lra |].
    rewrite Hd. div_literal. lra.
  - rewrite clamp_inside by (rewrite Hd; div_literal; lra).
    rewrite Hd.
    pose proof (round_error ((np - 5) / 195) 4) as He.
    assert (E : (1 # 2) / pow10 4 == 1 # 20000) by reflexivity.
    rewrite E in He. eapply Qle_trans; [exact He | discriminate].
  - rewrite clamp_above; [reflexivity | lra |].
    rewrite Hd. div_literal. lra.
Qed.

(** *** [velocity_score] and [score_listing], lines 73-99 and 136-167 *)

Lemma replace_Z_app (s t : string) :
  replace_Z (s ++ t) = (replace_Z s ++ replace_Z t)%string.
Proof.
  induction s as [| c s IH]; [reflexivity |].
  cbn [append replace_Z]. rewrite IH.
  destruct (Ascii.eqb c "Z"); reflexivity.
Qed.

Lemma truthy_app (s t : string) : truthy t = true -> truthy (s ++ t) = true.
Proof. destruct s; [auto | reflexivity]. Qed.

Section Runtime.

Variable ln : Q -> Q.
Variable fromisoformat : string -> option datetime.

#[local] Abbreviation score_listing := (score_listing ln fromisoformat).
#[local] Abbreviation velocity_score := (velocity_score ln fromisoformat).
#[local] Abbreviation recency_factor := (recency_factor fromisoformat).

(** X12: for a timestamp with a UTC offset the recency factor is 1 when the
    posting is in the future, falls linearly over the following week and is 0
    afterwards. *)
Theorem recency_factor_profile (now dt : Q) (p : option string) :
  Spec.timestamp fromisoformat p = Some (Aware dt) ->
  (now <= dt -> recency_factor now p == 1) /\
  (dt <= now <= dt + 604800 -> recency_factor now p == 1 - (now - dt) / 604800) /\
  (dt + 604800 <= now -> recency_factor now p == 0).
Proof.
  unfold Spec.timestamp, Scoring.recency_factor. intros Hts.
  destruct p as [s |]; [| discriminate].
  destruct (truthy s); [| discriminate].
  rewrite Hts. div_literal.
  repeat split; intros H; case_clamp; lra.
Qed.

(** X13: a timestamp written with a final [Z] gives the velocity of the same
    timestamp written with [+00:00]. *)
Theorem zulu_suffix_is_utc_offset (now a : Q) (m : option Q) (s : string)
  (likes views : Z) (b : Q) :
  velocity_score now a m (Some (s ++ "Z")%string) likes views b
  = velocity_score now a m (Some (s ++ "+00:00")%string) likes views b.
Proof.
  unfold Scoring.velocity_score, Scoring.recency_factor.
  rewrite !replace_Z_app, !truthy_app by reflexivity.
  reflexivity.
Qed.

(** X14: a brand popularity of 1 or more counts as 1 and one of 0 or less
    as 0. *)
Theorem brand_popularity_is_clamped (now a : Q) (m : option Q) (p : option string)
  (likes views : Z) (b : Q) :
  (1 <= b ->
   velocity_score now a m p likes views b = velocity_score now a m p likes views 1.0) /\
  (b <= 0 ->
   velocity_score now a m p likes views b = velocity_score now a m p likes views 0.0).
Proof.
  assert (H1 : 1 <= b -> brand b = brand 1.0).
  { intros H. unfold brand, clamp, py_max, py_min.
    assert (E : Qltb b 1.0 = false) by (apply Qltb_false; lra). now rewrite E. }
  assert (H0 : b <= 0 -> brand b = brand 0.0).
  { intros H. unfold brand, clamp, py_max, py_min.
    assert (E : Qltb b 1.0 = true) by (apply Qltb_true; lra). rewrite E.
    assert (E' : Qltb 0.0 b = false) by (apply Qltb_false; lra). now rewrite E'. }
  split; intros H; unfold Scoring.velocity_score;
    [rewrite (H1 H) | rewrite (H0 H)]; reflexivity.
Qed.

(** X15: [math.log] being increasing, more likes or more views never lower
    the velocity. *)
Theorem engagement_never_lowers_velocity now a m p likes1 views1 likes2 views2 b :
  (forall x y : Q, 0 < x -> x <= y -> ln x <= ln y) ->
  (0 <= likes1 <= likes2)%Z -> (0 <= views1 <= views2)%Z ->
  exists v1 v2,
    velocity_score now a m p likes1 views1 b = Ok v1 /\
    velocity_score now a m p likes2 views2 b = Ok v2 /\
    v1 <= v2.
Proof.
  intros ln_increasing [Hl1 Hl] [Hv1 Hv].
  rewrite !velocity_score_counters by lia.
  do 2 eexists. do 2 (split; [reflexivity |]).
  destruct m as [m |]; [| lra].
  apply clamp_mono.
  assert (Hs : clamp (ln (1 + inject_Z likes1 + inject_Z views1 / 20.0) / 5.0) 0.0 1.0
               <= clamp (ln (1 + inject_Z likes2 + inject_Z views2 / 20.0) / 5.0) 0.0 1.0).
  { apply clamp_mono. apply Qmult_le_compat_r; [| discriminate].
    rewrite Zle_Qle in Hl1, Hl, Hv1, Hv. change (inject_Z 0) with 0 in *.
    apply ln_increasing; div_literal; lra. }
  lra.
Qed.

(** X16: the score never exceeds 95: the weights of profit and velocity add
    up to 0.95 and the risk only subtracts. *)
Theorem score_at_most_95 (now : Q) (l : Listing) :
  Spec.counters_nonneg l ->
  exists r, score_listing now l = Ok r /\ score r <= 95.
Proof.
  intros Hc.
  destruct (score_listing_counters ln fromisoformat now l Hc) as (vel & Hvel & ->).
  eexists. split; [reflexivity |].
  apply velocity_score_bounds in Hvel.
  pose proof (risk_penalty_bounds (get (photo_quality l) 1.0)
                (get (ambiguous_brand l) false) (get (suspect_low_price l) false)) as Hrk.
  pose proof (profit_norm_bounds
                (compute_net_profit (get (asking_price l) 0.0) (market_est l)
                   VINTED_FEES_PCT AVG_SHIPPING_COST DEFAULT_REFURB_COST)) as Hpn.
  cbn [result_of score].
  apply (round_between _ _ 0 95).
  change (inject_Z 0) with 0. change (inject_Z 95) with 95.
  unfold WEIGHT_PROFIT, WEIGHT_VELOCITY, WEIGHT_RISK. case_clamp; lra.
Qed.

(** X17: without a market estimate [score_listing] returns on every listing,
    also on negative counters, with the score 0 and no net profit; the risk
    is still computed. *)
Theorem no_market_estimate_scores_zero (now : Q) (l : Listing) :
  Spec.market_unavailable l ->
  exists r, score_listing now l = Ok r /\
    score r == 0 /\ net_profit r = None /\ result_market_price_est r = None /\
    risk_raw (raw r)
    = risk_penalty (get (photo_quality l) 1.0) (get (ambiguous_brand l) false)
        (get (suspect_low_price l) false).
Proof.
  intros Hm. apply market_est_None_iff in Hm.
  rewrite score_listing_unfold, Hm. cbn [Scoring.velocity_score bind].
  eexists. split; [reflexivity |].
  cbn [result_of score net_profit result_market_price_est raw risk_raw].
  rewrite Hm. cbn [compute_net_profit profit_norm option_map].
  split; [| repeat split].
  pose proof (risk_penalty_bounds (get (photo_quality l) 1.0)
                (get (ambiguous_brand l) false) (get (suspect_low_price l) false)) as Hrk.
  set (rk := risk_penalty _ _ _) in *.
  assert (E : clamp (WEIGHT_PROFIT * 0.0 + WEIGHT_VELOCITY * 0.0 - WEIGHT_RISK * rk) 0.0 1.0
              * 100 == inject_Z 0).
  { unfold WEIGHT_PROFIT, WEIGHT_VELOCITY, WEIGHT_RISK. change (inject_Z 0) with 0.
    case_clamp; lra. }
  rewrite E. apply round_Z.
Qed.

(** X19: a supplied market estimate is the estimate used, and the historical
    prices then have no effect on the result. *)
Theorem supplied_estimate_overrides_history (now : Q) (l : Listing) (m : Q)
  (prices : option (list Q)) :
  market_price_est l = Some m ->
  score_listing now (with_historical_prices l prices) = score_listing now l /\
  market_est l = Some m.
Proof.
  intros Hm. unfold Scoring.score_listing, market_est.
  cbn [with_historical_prices asking_price market_price_est posted_at likes views
       brand_popularity photo_quality ambiguous_brand suspect_low_price].
  rewrite Hm. split; reflexivity.
Qed.

Lemma recency_factor_antitone (now1 now2 : Q) (p : option string) :
  now1 <= now2 -> recency_factor now2 p <= recency_factor now1 p.
Proof.
  intros H. unfold Scoring.recency_factor.
  destruct p as [s |]; [| lra].
  destruct (truthy s); [| lra].
  destruct (fromisoformat (replace_Z s)) as [[dt | dt] |]; try lra.
  div_literal. case_clamp; lra.
Qed.

Lemma velocity_score_antitone_in_time now1 now2 a m p likes views b v1 v2 :
  now1 <= now2 ->
  velocity_score now1 a m p likes views b = Ok v1 ->
  velocity_score now2 a m p likes views b = Ok v2 ->
  v2 <= v1.
Proof.
  intros H. unfold Scoring.velocity_score. destruct m as [m |].
  - rewrite !price_ratio_defined. cbn [bind].
    destruct (social ln likes views) as [s | e]; cbn [bind]; [| discriminate].
    intros [= <-] [= <-]. apply clamp_mono.
    pose proof (recency_factor_antitone now1 now2 p H). lra.
  - intros [= <-] [= <-]. lra.
Qed.

(** X21: scored at a later instant the same listing never gets a higher
    velocity or score; its net profit and its risk are unchanged. *)
Theorem score_never_rises_with_time (now1 now2 : Q) (l : Listing) :
  Spec.counters_nonneg l -> now1 <= now2 ->
  exists r1 r2,
    score_listing now1 l = Ok r1 /\ score_listing now2 l = Ok r2 /\
    velocity_raw (raw r2) <= velocity_raw (raw r1) /\
    score r2 <= score r1 /\
    net_profit r2 = net_profit r1 /\ risk_raw (raw r2) = risk_raw (raw r1).
Proof.
  intros Hc Hnow.
  destruct (score_listing_counters ln fromisoformat now1 l Hc) as (v1 & Hv1 & ->).
  destruct (score_listing_counters ln fromisoformat now2 l Hc) as (v2 & Hv2 & ->).
  do 2 eexists. do 2 (split; [reflexivity |]).
  pose proof (velocity_score_antitone_in_time _ _ _ _ _ _ _ _ _ _ Hnow Hv1 Hv2) as Hvel.
  cbn [result_of raw velocity_raw score net_profit risk_raw].
  split; [exact Hvel |].
  split; [| split; reflexivity].
  apply round_mono. apply Qmult_le_compat_r; [| lra].
  apply clamp_mono. unfold WEIGHT_PROFIT, WEIGHT_VELOCITY, WEIGHT_RISK. lra.
Qed.

End Runtime.

Lemma recency_factor_profile_witness :
  recency_factor Sample.fromisoformat (Sample.epoch_2024 + 302400)
    (Some "2024-01-01T00:00:00Z"%string)
  == 1 - (Sample.epoch_2024 + 302400 - Sample.epoch_2024) / 604800.
Proof.
  destruct (recency_factor_profile Sample.fromisoformat (Sample.epoch_2024 + 302400)
              Sample.epoch_2024 (Some "2024-01-01T00:00:00Z"%string) eq_refl)
    as (_ & Hmid & _).
  apply Hmid. split; discriminate.
Defined.

Lemma ln_tangent_increasing (x y : Q) : 0 < x -> x <= y -> ln_tangent x <= ln_tangent y.
Proof. intros _ H. unfold ln_tangent. lra. Defined.

Lemma engagement_never_lowers_velocity_witness :
  exists v1 v2,
    velocity_score ln_tangent Sample.fromisoformat Sample.epoch_2024 20 (Some 40) None
      0 0 0.5 = Ok v1 /\
    velocity_score ln_tangent Sample.fromisoformat Sample.epoch_2024 20 (Some 40) None
      10 100 0.5 = Ok v2 /\
    v1 <= v2.
Proof.
  apply engagement_never_lowers_velocity.
  - exact ln_tangent_increasing.
  - split; discriminate.
  - split; discriminate.
Defined.

Lemma score_at_most_95_witness :
  exists r,
    score_listing Sample.ln Sample.fromisoformat Sample.epoch_2024 Sample.scenario = Ok r /\
    score r <= 95.
Proof.
  apply score_at_most_95. split; discriminate.
Defined.

Lemma no_market_estimate_scores_zero_witness :
  exists r,
    score_listing Sample.ln Sample.fromisoformat Sample.epoch_2024
      no_estimate_negative_likes = Ok r /\
    score r == 0 /\ net_profit r = None.
Proof.
  destruct (no_market_estimate_scores_zero Sample.ln Sample.fromisoformat Sample.epoch_2024
              no_estimate_negative_likes (conj eq_refl eq_refl))
    as (r & Hr & Hs & Hn & _).
  exists r. auto.
Defined.

Lemma supplied_estimate_overrides_history_witness :
  score_listing Sample.ln Sample.fromisoformat Sample.epoch_2024
    (with_historical_prices (Sample.bare 20 40) (Some [1; 2; 3]))
  = score_listing Sample.ln Sample.fromisoformat Sample.epoch_2024 (Sample.bare 20 40).
Proof.
  apply (supplied_estimate_overrides_history Sample.ln Sample.fromisoformat
           Sample.epoch_2024 (Sample.bare 20 40) 40 (Some [1; 2; 3]) eq_refl).
Defined.

Lemma score_never_rises_with_time_witness :
  exists r1 r2,
    score_listing Sample.ln Sample.fromisoformat Sample.epoch_2024 Sample.scenario = Ok r1 /\
    score_listing Sample.ln Sample.fromisoformat (Sample.epoch_2024 + Sample.one_week)
      Sample.scenario = Ok r2 /\
    score r2 <= score r1.
Proof.
  assert (Hc : Spec.counters_nonneg Sample.scenario) by (split; discriminate).
  assert (Hnow : Sample.epoch_2024 <= Sample.epoch_2024 + Sample.one_week) by discriminate.
  destruct (score_never_rises_with_time Sample.ln Sample.fromisoformat
              Sample.epoch_2024 (Sample.epoch_2024 + Sample.one_week) Sample.scenario Hc Hnow)
    as (r1 & r2 & H1 & H2 & _ & Hs & _).
  exists r1, r2. auto.
Defined.

(** *** [CollectorAsync], lines 172-184 *)

Import Collector CollectorFacts.

Lemma zero_capacity_no_step (c c' : CollectorAsync) :
  sema c = 0%Z -> in_flight c = [] -> ~ step c c'.
Proof.
  intros Hs Hf Hstep.
  destruct Hstep as [c before url after Hq Hfree | c before url after client_get Hfl].
  - lia.
  - rewrite Hf in Hfl. destruct before; discriminate Hfl.
Qed.

Lemma zero_capacity_stuck (c0 c : CollectorAsync) :
  steps c0 c -> sema c0 = 0%Z -> in_flight c0 = [] -> c = c0.
Proof.
  induction 1 as [c | c1 c2 c3 H12 IH H23]; intros Hs Hf; [reflexivity |].
  specialize (IH Hs Hf). subst c2.
  now destruct (zero_capacity_no_step _ _ Hs Hf H23).
Qed.

(** X22: a collector built with [concurrency = 0] never lets a call of
    [_fetch] past its gate: whatever the run, every URL stays queued and
    nothing is in flight or finished. *)
Theorem zero_concurrency_starves (urls : list string) (c0 c : CollectorAsync) :
  init 0 urls = Py.Ok c0 ->
  steps c0 c ->
  queued c = urls /\ in_flight c = [] /\ finished c = [].
Proof.
  intros Hinit Hsteps.
  destruct (init_invariant _ _ _ Hinit) as ((_ & _ & Hsum) & Hq & Hf & Hd).
  assert (Hs : sema c0 = 0%Z) by (rewrite Hf in Hsum; cbn [List.length] in Hsum; lia).
  rewrite (zero_capacity_stuck _ _ Hsteps Hs Hf). auto.
Qed.

Lemma zero_concurrency_starves_witness :
  queued zero_capacity = Sample.sample_urls /\
  in_flight zero_capacity = [] /\ finished zero_capacity = [].
Proof.
  exact (zero_concurrency_starves Sample.sample_urls zero_capacity zero_capacity
           eq_refl (steps_refl _)).
Defined.

End CoverageFacts.
